(** * Availability engine of gbp-auto-poster (src/calendar.ts)

    A shallow embedding of [calcFreeSlots] and of [getAvailability],
    followed by the properties that the specification states about them.

    The file has four parts: the embedding of the source, the vocabulary
    of the specification, the lemmas, and the claims C1 to C10 (after a
    replay of the unit tests of the repository).

    Conventions of the embedding.
    - A timestamp is the number of milliseconds since the epoch
      ([dayjs(...).valueOf()]), an integer, modelled as [Z].
    - An ISO string produced by [toISOString] is modelled by the instant
      it denotes ([ISOString]); [toISOString] keeps millisecond
      precision, so [dayjs(iso).valueOf()] gives the instant back.
    - A time zone is modelled by its offset from UTC in milliseconds
      (exact for zones without daylight saving such as the default
      ['Asia/Tokyo'], +9h).
    - The clock reading ([dayjs()]) and the response of the calendar API
      ([events]) are explicit inputs of [getAvailability]; the run is
      taken to be instantaneous (one clock reading).
    - JavaScript arrays that are mutated in place live in a store; see
      [Module Store]. *)

From Stdlib Require Import ZArith Lia String DecimalString.
From stdpp Require Import base list sorting gmap.

Local Open Scope Z_scope.

(** * Embedding of the source *)

(** ** Timestamps and ISO strings *)

Inductive ISOString : Type := ISO (ms : Z).

(** [dayjs(ms).tz(tz).toISOString()]: the zone does not change the
    instant, and the string is always rendered in UTC. *)
Definition toISOString (tz ms : Z) : ISOString := ISO ms.

(** [dayjs(iso).valueOf()] *)
Definition valueOf (s : ISOString) : Z := let 'ISO ms := s in ms.

#[global] Instance ISOString_eq_dec : EqDecision ISOString.
Proof. solve_decision. Defined.

(** ** Data model *)

(** [type AvailabilityCase = 'A' | 'B' | 'C'] *)
Inductive AvailabilityCase : Type := A | B | C.

#[global] Instance AvailabilityCase_eq_dec : EqDecision AvailabilityCase.
Proof. solve_decision. Defined.

(** [interface TimeSlot { start: string; end: string }] *)
Record TimeSlot : Type := mkTimeSlot { start : ISOString; end_ : ISOString }.

#[global] Instance TimeSlot_eq_dec : EqDecision TimeSlot.
Proof. solve_decision. Defined.

(** [interface AvailabilityResult] *)
Record AvailabilityResult : Type := mkAvailabilityResult {
  case : AvailabilityCase;
  freeSlots : list TimeSlot;
  peakFreeSlots : list TimeSlot;
  isWeekend : bool;
  todayLabel : string
}.

(** [{ start: number; end: number }], in hours *)
Record HourRange : Type := mkHourRange { hr_start : Z; hr_end : Z }.

(** [interface PeakHours] *)
Record PeakHours : Type := mkPeakHours { weekday : HourRange; weekend : HourRange }.

(** A busy interval, [[number, number]]: start and end in milliseconds. *)
Definition Interval : Type := (Z * Z)%type.

(** ** [Array.prototype.sort] with the comparator [(a, b) => a[0] - b[0]]

    The sort of the language is stable; a stable sort is determined by
    its comparator, so insertion sort gives the same array. *)

Definition compareStart (a b : Interval) : Z := a.1 - b.1.

Fixpoint insertBy (cmp : Interval → Interval → Z) (x : Interval)
    (l : list Interval) : list Interval :=
  match l with
  | [] => [x]
  | y :: l' => if cmp x y <=? 0 then x :: y :: l' else y :: insertBy cmp x l'
  end.

Definition sortBy (cmp : Interval → Interval → Z) (l : list Interval)
    : list Interval :=
  foldr (insertBy cmp) [] l.

(** ** [calcFreeSlots] *)

(** The state of the loop: the cursor and the slots pushed so far. *)
Definition SweepState : Type := (Z * list TimeSlot)%type.

(** One iteration of [for (const [bStart, bEnd] of sorted)]. *)
Definition sweepStep (tz : Z) (st : SweepState) (b : Interval) : SweepState :=
  let '(cursor, freeSlots) := st in
  let '(bStart, bEnd) := b in
  let freeSlots :=
    if bStart >? cursor
    then freeSlots ++ [mkTimeSlot (toISOString tz cursor) (toISOString tz bStart)]
    else freeSlots in
  (Z.max cursor bEnd, freeSlots).

Definition calcFreeSlots (dayStart dayEnd : Z) (busyIntervals : list Interval)
    (tz : Z) : list TimeSlot :=
  let sorted := sortBy compareStart busyIntervals in
  let '(cursor, freeSlots) := foldl (sweepStep tz) (dayStart, []) sorted in
  if cursor <? dayEnd
  then freeSlots ++ [mkTimeSlot (toISOString tz cursor) (toISOString tz dayEnd)]
  else freeSlots.

(** ** The parts of dayjs that [getAvailability] uses

    A dayjs value in zone [tz] is given by its instant [ms]; its
    wall-clock fields are those of [ms + tz] read as UTC. *)

Definition MS_PER_HOUR : Z := 3600000.
Definition MS_PER_DAY : Z := 86400000.

(** [d.startOf('day')]: hours, minutes, seconds and milliseconds of the
    wall clock are set to zero. *)
Definition startOfDay (tz ms : Z) : Z := ms - (ms + tz) mod MS_PER_DAY.

(** [d.endOf('day')]: the wall clock is set to 23:59:59.999. *)
Definition endOfDay (tz ms : Z) : Z := startOfDay tz ms + (MS_PER_DAY - 1).

(** [d.hour()] *)
Definition hour (tz ms : Z) : Z := ((ms + tz) mod MS_PER_DAY) / MS_PER_HOUR.

(** [d.hour(h)]: the hour field of the wall clock is replaced by [h]. *)
Definition setHour (tz ms h : Z) : Z := ms + (h - hour tz ms) * MS_PER_HOUR.

(** [d.day()]: 0 is Sunday; the epoch was a Thursday. *)
Definition day (tz ms : Z) : Z := ((ms + tz) / MS_PER_DAY + 4) mod 7.

(** Year, month (1..12) and day of the month of a number of days since
    the epoch, in the proleptic Gregorian calendar. *)
Definition civilFromDays (days : Z) : Z * Z * Z :=
  let z := days + 719468 in
  let era := z / 146097 in
  let doe := z mod 146097 in
  let yoe := (doe - doe / 1460 + doe / 36524 - doe / 146096) / 365 in
  let doy := doe - (365 * yoe + yoe / 4 - yoe / 100) in
  let mp := (5 * doy + 2) / 153 in
  let d := doy - (153 * mp + 2) / 5 + 1 in
  let m := if mp <? 10 then mp + 3 else mp - 9 in
  let y := yoe + era * 400 + (if m <=? 2 then 1 else 0) in
  (y, m, d).

(** [d.month()], 0-based *)
Definition month (tz ms : Z) : Z := (civilFromDays ((ms + tz) / MS_PER_DAY)).1.2 - 1.

(** [d.date()] *)
Definition date (tz ms : Z) : Z := (civilFromDays ((ms + tz) / MS_PER_DAY)).2.

(** Template-literal rendering of an integer. *)
Definition showZ (n : Z) : string := NilZero.string_of_int (Z.to_int n).

(** [formatTodayLabel] *)
Definition DAYS : list string := ["日"; "月"; "火"; "水"; "木"; "金"; "土"]%string.

Definition formatTodayLabel (tz d : Z) : string :=
  let month := month tz d + 1 in
  let date := date tz d in
  let day := default "undefined"%string (DAYS !! Z.to_nat (day tz d)) in
  (showZ month ++ "月" ++ showZ date ++ "日(" ++ day ++ ")")%string.

(** ** Calendar events, as the API returns them *)

(** [Schema$EventDateTime]: [dateTime] for timed events, [date] for
    all-day events; each string is modelled by the instant that [dayjs]
    parses from it. *)
Record EventDateTime : Type := mkEventDateTime {
  dateTime : option Z;
  date_ : option Z
}.

(** [Schema$Event], restricted to the two fields that are read. *)
Record CalendarEvent : Type := mkCalendarEvent {
  ev_start : option EventDateTime;
  ev_end : option EventDateTime
}.

(** [dayjs(x?.dateTime ?? x?.date ?? undefined).tz(tz).valueOf()];
    [dayjs(undefined)] is the current time. *)
Definition eventInstant (now : Z) (x : option EventDateTime) : Z :=
  match x ≫= dateTime with
  | Some t => t
  | None => match x ≫= date_ with
            | Some t => t
            | None => now
            end
  end.

(** [e => e.start && e.end] *)
Definition hasStartAndEnd (e : CalendarEvent) : bool :=
  match ev_start e, ev_end e with
  | Some _, Some _ => true
  | _, _ => false
  end.

Definition toBusyInterval (now : Z) (e : CalendarEvent) : Interval :=
  (eventInstant now (ev_start e), eventInstant now (ev_end e)).

(** ** The peak-window pipeline of [getAvailability] *)

(** [slot => s < peakEnd && e > peakStart] *)
Definition overlapsPeak (peakStart peakEnd : Z) (slot : TimeSlot) : bool :=
  let s := valueOf (start slot) in
  let e := valueOf (end_ slot) in
  (s <? peakEnd) && (e >? peakStart).

(** The clamping [map]. *)
Definition clampToPeak (tz peakStart peakEnd : Z) (slot : TimeSlot) : TimeSlot :=
  let s := Z.max (valueOf (start slot)) peakStart in
  let e := Z.min (valueOf (end_ slot)) peakEnd in
  mkTimeSlot (toISOString tz s) (toISOString tz e).

(** [slot => dayjs(slot.end).valueOf() > dayjs(slot.start).valueOf()] *)
Definition positiveDuration (slot : TimeSlot) : bool :=
  valueOf (end_ slot) >? valueOf (start slot).

Definition peakFreeOf (tz peakStart peakEnd : Z) (freeSlots : list TimeSlot)
    : list TimeSlot :=
  List.filter positiveDuration
    (List.map (clampToPeak tz peakStart peakEnd)
       (List.filter (overlapsPeak peakStart peakEnd) freeSlots)).

(** ** [getAvailability]

    [now] is the reading of the clock and [events] the items of the
    response of [calendar.events.list] for the day ([items ?? []]). *)
Definition getAvailability (now : Z) (events : list CalendarEvent)
    (peakHours : PeakHours) (tz : Z) : AvailabilityResult :=
  let todayStart := startOfDay tz now in
  let todayEnd := endOfDay tz now in
  let isWeekend := (day tz now =? 0) || (day tz now =? 6) in
  if (length events =? 0)%nat then
    {| case := B;
       freeSlots := [mkTimeSlot (toISOString tz todayStart) (toISOString tz todayEnd)];
       peakFreeSlots := [];
       isWeekend := isWeekend;
       todayLabel := formatTodayLabel tz now |}
  else
    let busyIntervals :=
      List.map (toBusyInterval now) (List.filter hasStartAndEnd events) in
    let freeSlots := calcFreeSlots todayStart todayEnd busyIntervals tz in
    let peak := if isWeekend then weekend peakHours else weekday peakHours in
    let peakStart := setHour tz todayStart (hr_start peak) in
    let peakEnd := setHour tz todayStart (hr_end peak) in
    let peakFreeSlots := peakFreeOf tz peakStart peakEnd freeSlots in
    let avCase := if (0 <? length peakFreeSlots)%nat then A else C in
    {| case := avCase;
       freeSlots := freeSlots;
       peakFreeSlots := peakFreeSlots;
       isWeekend := isWeekend;
       todayLabel := formatTodayLabel tz now |}.

(** ** Arrays in a store: what [calcFreeSlots] does to its argument

    [sort] works in place and returns the array it was called on, and
    [[...a]] allocates a new array.  Arrays of intervals are kept in a
    store indexed by references; the store is threaded through a state
    monad in which reading an unallocated reference fails.  The pairs
    themselves are only ever read, so they are kept as values. *)
Module Store.

Abbreviation ref := positive.
Abbreviation heap := (gmap positive (list Interval)).

Definition M (X : Type) : Type := heap → option (X * heap).

Definition ret {X} (x : X) : M X := λ σ, Some (x, σ).
Definition bind {X Y} (m : M X) (k : X → M Y) : M Y :=
  λ σ, match m σ with
       | Some (x, σ') => k x σ'
       | None => None
       end.

Notation "x <~ m ;; k" := (bind m (λ x, k))
  (at level 100, m at next level, right associativity).

(** Reading the elements of an array. *)
Definition elements (r : ref) : M (list Interval) :=
  λ σ, match σ !! r with
       | Some xs => Some (xs, σ)
       | None => None
       end.

(** [[...r]]: a new array with the elements of [r]. *)
Definition spread (r : ref) : M ref :=
  λ σ, match σ !! r with
       | Some xs => let r' := fresh (dom σ) in Some (r', <[r' := xs]> σ)
       | None => None
       end.

(** [r.sort(cmp)]: the array is sorted in place and returned. *)
Definition sort (cmp : Interval → Interval → Z) (r : ref) : M ref :=
  λ σ, match σ !! r with
       | Some xs => Some (r, <[r := sortBy cmp xs]> σ)
       | None => None
       end.

(** The loop and the final test of [calcFreeSlots], on the elements of
    the sorted array. *)
Definition sweep (tz dayStart dayEnd : Z) (sorted : list Interval) : list TimeSlot :=
  let '(cursor, freeSlots) := foldl (sweepStep tz) (dayStart, []) sorted in
  if cursor <? dayEnd
  then freeSlots ++ [mkTimeSlot (toISOString tz cursor) (toISOString tz dayEnd)]
  else freeSlots.

(** [calcFreeSlots] on a reference to the caller's array. *)
Definition calcFreeSlots (dayStart dayEnd : Z) (busyIntervals : ref) (tz : Z)
    : M (list TimeSlot) :=
  copy <~ spread busyIntervals ;;
  sorted <~ sort compareStart copy ;;
  xs <~ elements sorted ;;
  ret (sweep tz dayStart dayEnd xs).

End Store.

(** * The text generator (src/generator.ts, lines 1-126)

    A string is modelled by its UTF-8 encoding; the strings here are only
    concatenated and searched, which the encoding preserves. *)

(** [interface StudioGeneratorConfig] *)
Record StudioGeneratorConfig : Type := mkStudioGeneratorConfig {
  timezone : Z;
  peakHours : PeakHours
}.

(** The line feed of the string literals. *)
Definition LF : string := String (Ascii.ascii_of_nat 10) EmptyString.

(** [const FOOTER] *)
Definition FOOTER : string :=
  (LF ++ LF ++ "24時間即時予約・キーボックスで非対面入室可能。" ++ LF ++
   "下記の予約ボタンから今すぐご予約いただけます。")%string.

(** The product of two doubles is the exact product rounded to the
    nearest double, ties to even.  For an integer [p ≥ 0],
    [roundToDouble p / 2^53] is the double nearest to [p / 2^53]: [p] is
    rounded to 53 significant bits. *)
Definition roundToDouble (p : Z) : Z :=
  let shift := Z.max 0 (Z.log2 p - 52) in
  let q := p / 2 ^ shift in
  let r := p mod 2 ^ shift in
  let q' :=
    if 2 * r <? 2 ^ shift then q
    else if 2 ^ shift <? 2 * r then q + 1
    else if Z.even q then q else q + 1 in
  q' * 2 ^ shift.

(** [pick]: [arr[Math.floor(Math.random() * arr.length)]].  The value of
    [Math.random()] is a double in the interval [[0, 1)], drawn by the
    engines as a multiple of [2^-53]: it is [random / 2^53] with
    [0 ≤ random < 2^53], an explicit input.  The length of an array is
    below [2^32], a double itself, and the product is a product of
    doubles.  Reading outside the array gives [undefined], here
    [None]. *)
Definition pick {T : Type} (random : Z) (arr : list T) : option T :=
  arr !! Z.to_nat (roundToDouble (random * Z.of_nat (length arr)) / 2 ^ 53).

(** How a template literal prints a value that may be [undefined]. *)
Definition printed (v : option string) : string := default "undefined"%string v.

(** [formatHour] *)
Definition formatHour (h : Z) : string := (showZ h ++ "時")%string.

(** [slotsToString] *)
Definition slotsToString (slots : list TimeSlot) (tz : Z) : string :=
  String.concat "、"
    (List.map
       (λ s, let st := hour tz (valueOf (start s)) in
             let en := hour tz (valueOf (end_ s)) in
             (showZ st ++ "時〜" ++ showZ en ++ "時")%string)
       slots).

(** [generatePost]; [random] is the value that [Math.random()] returns
    in the one call of [pick]. *)
Definition generatePost (availability : AvailabilityResult)
    (studio : StudioGeneratorConfig) (random : Z) : string :=
  let avCase := case availability in
  let peakFreeSlots := peakFreeSlots availability in
  let freeSlots := freeSlots availability in
  let isWeekend := isWeekend availability in
  let todayLabel := todayLabel availability in
  let peak :=
    if isWeekend then weekend (peakHours studio) else weekday (peakHours studio) in
  let peakStartStr := formatHour (hr_start peak) in
  let peakEndStr := formatHour (hr_end peak) in
  let body :=
    match avCase with
    | B =>
      let templates := [
          ("【本日穴場です】本日" ++
           todayLabel ++
           "は終日予約にゆとりがあります。天満橋の24時間営業・年中無休のレンタルスタジオをたっぷり使いたい方に最適です。動画撮影、長時間のリハーサル、深夜の自主練など、周りを気にせず集中できる1日です。");
          ("【" ++
           todayLabel ++
           " 終日空きあり】天満橋で24時間営業・年中無休のレンタルスタジオをお探しの方へ。本日は1日を通じてご予約にゆとりがあります。長時間の撮影セッションや集中練習にぜひご活用ください。");
          ("【本日は穴場日です】" ++
           todayLabel ++
           "、Studio Beat 24hは終日空き状態です。天満橋の24時間営業・年中無休スタジオで、のびのびと練習・撮影ができる絶好のチャンスです。深夜・早朝のご利用も大歓迎。");
          ("【" ++
           todayLabel ++
           " 贅沢に使える1日】天満橋の24時間営業・年中無休レンタルスタジオ、本日は終日ゆとりあり。周りを気にせず長時間練習したい方や、グループでのリハーサルにも最適です。")
        ]%string in
      pick random templates
    | A =>
      let slotStr := slotsToString peakFreeSlots (timezone studio) in
      let templates := [
          ("【本日" ++
           peakStartStr ++
           "〜" ++
           peakEndStr ++
           "に空きあり】" ++
           todayLabel ++
           "、天満橋の24時間営業・年中無休レンタルスタジオ Studio Beat 24h に空きが出ました！お仕事帰りの個人練習や直前のダンス練習にすぐ対応可能です。空き枠: " ++
           slotStr);
          ("【" ++
           todayLabel ++
           " " ++
           peakStartStr ++
           "台に空き】天満橋の年中無休・24時間営業レンタルスタジオに本日ピーク時間帯の空きがあります（" ++
           slotStr ++
           "）。仕事・学校帰りにそのままスタジオへどうぞ。即時予約OK。");
          ("【今日の" ++
           peakStartStr ++
           "〜空き情報】" ++
           todayLabel ++
           "の人気時間帯（" ++
           slotStr ++
           "）に空きが出ました。天満橋から好アクセスの24時間営業・年中無休レンタルスタジオ。直前予約でもキーボックスですぐ入室できます。");
          ("【" ++
           peakStartStr ++
           "〜" ++
           peakEndStr ++
           " 空き速報】" ++
           todayLabel ++
           "、天満橋 Studio Beat 24h の人気時間帯に空きあり（" ++
           slotStr ++
           "）。24時間営業・年中無休なので急な予定にも対応。今すぐご予約ください。")
        ]%string in
      pick random templates
    | C =>
      let slotStr := slotsToString (take 3 freeSlots) (timezone studio) in
      let templates := [
          ("【" ++
           todayLabel ++
           " 空き時間帯のご案内】天満橋の24時間営業・年中無休レンタルスタジオ Studio Beat 24h の本日空き情報です。現在ご利用いただける枠: " ++
           slotStr ++
           "。キーボックスで非対面入室できます。");
          ("【本日の空き状況】" ++
           todayLabel ++
           "、天満橋の年中無休・24時間営業スタジオに空きがあります（" ++
           slotStr ++
           "）。練習・撮影・リハーサルなど用途に合わせてご利用ください。");
          ("【" ++
           todayLabel ++
           " スタジオ空き情報】天満橋 Studio Beat 24h の空き時間帯: " ++
           slotStr ++
           "。24時間営業・年中無休なので急な予定でもご安心ください。即時予約可能です。");
          ("【本日ご利用いただける枠】" ++
           todayLabel ++
           "の空き: " ++
           slotStr ++
           "。天満橋の24時間営業・年中無休レンタルスタジオで、個人練習からグループリハーサルまで対応しています。")
        ]%string in
      pick random templates
    end in
  (printed body ++ FOOTER)%string.

(** * The history analysis (src/analyze-history.ts)

    [countByHour], the pure part of the script.  An event is the pair of
    the instants of its [start] and [end] strings. *)

(** [d.minute()] *)
Definition minute (tz ms : Z) : Z := ((ms + tz) mod MS_PER_HOUR) / 60000.

(** [type HourCounts = number[]]; [Array(24).fill(0)] *)
Abbreviation HourCounts := (list Z).
Definition noCounts : HourCounts := replicate 24 0.

(** [dayjs(s).day() === 0 || dayjs(s).day() === 6] *)
Definition onWeekend (tz s : Z) : bool := (day tz s =? 0) || (day tz s =? 6).

(** [endMin > 0 ? endHour + 1 : endHour] *)
Definition endHourExclusive (tz e : Z) : Z :=
  if minute tz e >? 0 then hour tz e + 1 else hour tz e.

(** [for (let h = startHour; h < endHourExclusive && h < 24; h++) counts[h]++]:
    the loop visits [startHour], [startHour + 1], ... as long as both
    tests hold. *)
Definition bumpHours (counts : HourCounts) (startHour endHourExclusive : Z)
    : HourCounts :=
  foldl (λ counts h, alter Z.succ (Z.to_nat h) counts) counts
    (seqZ startHour (Z.min endHourExclusive 24 - startHour)).

(** One iteration of [for (const { start, end } of events)]; [counts] is
    an alias of one of the two arrays, which is then updated in place. *)
Definition countStep (tz : Z) (st : HourCounts * HourCounts) (ev : Z * Z)
    : HourCounts * HourCounts :=
  let '(weekday, weekend) := st in
  let '(s, e) := ev in
  let startHour := hour tz s in
  let endHourExclusive := endHourExclusive tz e in
  if onWeekend tz s
  then (weekday, bumpHours weekend startHour endHourExclusive)
  else (bumpHours weekday startHour endHourExclusive, weekend).

(** [countByHour]: the pair [{ weekday, weekend }]. *)
Definition countByHour (events : list (Z * Z)) (tz : Z) : HourCounts * HourCounts :=
  foldl (countStep tz) (noCounts, noCounts) events.

(** * Posting through the webhook (gbp.ts, in the version that index.ts
    calls: src/unnamed/part_000, lines 211-320)

    Texts are UTF-8 encoded, as in the generator.  The regular expression
    and [slice] of the title work on UTF-16 code units; on a well-formed
    text the encoding changes nothing for the expression (the brackets
    and the line terminators are characters of the basic plane, and no
    encoded character occurs inside another), and [slice] counts two
    units for a character of four bytes. *)

Module Gbp.

(** [interface LocalPostParams] *)
Record LocalPostParams : Type := mkLocalPostParams {
  accountId : string;
  locationId : string;
  postText : string;
  bookingUrl : string;
  webhookUrl : string
}.

(** [interface PostResult]; [error] is absent on success. *)
Record PostResult : Type := mkPostResult {
  success : bool;
  retried : bool;
  error : option string
}.

(** ** The title *)

Definition OPEN : string := "【".
Definition CLOSE : string := "】".

Definition bytes (l : list Z) : string :=
  string_of_list_ascii (List.map (λ b, Ascii.ascii_of_N (Z.to_N b)) l).

Definition byte (c : Ascii.ascii) : Z := Z.of_N (Ascii.N_of_ascii c).

(** What [.] does not match: LF, CR, U+2028 and U+2029. *)
Definition lineTerminators : list string :=
  [LF; bytes [13]; bytes [226; 128; 168]; bytes [226; 128; 169]].

(** The rest of [s] after the literal [p], when [s] starts with it. *)
Fixpoint dropPrefix (p s : string) : option string :=
  match p, s with
  | EmptyString, _ => Some s
  | String a p', String b s' => if Ascii.eqb a b then dropPrefix p' s' else None
  | String _ _, EmptyString => None
  end.

Definition atLineTerminator (s : string) : bool :=
  existsb (λ t, match dropPrefix t s with Some _ => true | None => false end)
    lineTerminators.

(** [.*?】] at the start of [s]: the characters matched by the lazy
    quantifier, which stops at the first closing bracket. *)
Fixpoint lazyUntilClose (s : string) : option string :=
  match dropPrefix CLOSE s with
  | Some _ => Some EmptyString
  | None =>
      if atLineTerminator s then None
      else match s with
           | EmptyString => None
           | String c s' => String c <$> lazyUntilClose s'
           end
  end.

(** [postText.match(/^【(.+?)】/)]: the captured group, when the
    expression matches.  [.+?] takes one character, then as few as
    possible. *)
Definition titleMatch (postText : string) : option string :=
  match dropPrefix OPEN postText with
  | None => None
  | Some rest =>
      if atLineTerminator rest then None
      else match rest with
           | EmptyString => None
           | String c rest' => String c <$> lazyUntilClose rest'
           end
  end.

(** The first half of a character of two code units, as [slice] leaves
    it when it cuts the character: a lone surrogate. *)
Definition highSurrogate (c0 c1 c2 c3 : Ascii.ascii) : string :=
  let cp := (byte c0 mod 8) * 262144 + (byte c1 mod 64) * 4096
            + (byte c2 mod 64) * 64 + byte c3 mod 64 in
  let u := 55296 + (cp - 65536) / 1024 in
  bytes [224 + u / 4096; 128 + (u / 64) mod 64; 128 + u mod 64].

(** The bytes and the code units of the character that starts with [c]. *)
Definition width (c : Ascii.ascii) : nat :=
  if byte c <? 192 then 1 else if byte c <? 224 then 2
  else if byte c <? 240 then 3 else 4.

Definition units (c : Ascii.ascii) : nat := if byte c <? 240 then 1 else 2.

(** [s.slice(0, n)]: the first [n] code units; [pending] bytes of the
    current character are still to be copied. *)
Fixpoint sliceFrom (n pending : nat) (s : string) : string :=
  match s with
  | EmptyString => EmptyString
  | String c s' =>
      match pending with
      | S p => String c (sliceFrom n p s')
      | O =>
          if (units c <=? n)%nat
          then String c (sliceFrom (n - units c) (width c - 1) s')
          else if (n =? 1)%nat
               then match s' with
                    | String c1 (String c2 (String c3 _)) => highSurrogate c c1 c2 c3
                    | _ => EmptyString
                    end
               else EmptyString
      end
  end.

Definition slice0 (n : nat) (s : string) : string := sliceFrom n 0 s.

(** [titleMatch ? titleMatch[1] : postText.slice(0, 40)] *)
Definition title (postText : string) : string :=
  match titleMatch postText with
  | Some group => group
  | None => slice0 40 postText
  end.

(** ** The requests *)

(** The object given to [JSON.stringify]; the body of the request is
    modelled by this object. *)
Record Payload : Type := mkPayload {
  p_accountId : string;
  p_locationId : string;
  p_title : string;
  p_text : string;
  p_bookingUrl : string
}.

(** What the code reads of a [Response]; [bodyText] is [None] when
    [response.text()] rejects. *)
Record Response : Type := mkResponse {
  ok : bool;
  status : Z;
  bodyText : option string
}.

(** A call of [fetch] resolves to a response or rejects. *)
Inductive FetchOutcome : Type :=
  | Resolves (response : Response)
  | Rejects (reason : string).

(** The network: the outcome of the call of [fetch] of a given rank
    (from 0) with a given request. *)
Definition Network : Type := nat → string → Payload → FetchOutcome.

(** What the function does besides returning: POST requests with a JSON
    body, lines on the error console, waits. *)
Inductive Effect : Type :=
  | Fetch (url : string) (body : Payload)
  | ConsoleError (message : string)
  | Sleep (ms : Z).

Record World : Type := mkWorld {
  calls : nat;
  effects : list Effect
}.

(** An async function returns or throws (its promise is fulfilled or
    rejected). *)
Inductive Completion (X : Type) : Type :=
  | Returns (x : X)
  | Throws (reason : string).
Arguments Returns {X} x.
Arguments Throws {X} reason.

Definition Async (X : Type) : Type := Network → World → Completion X * World.

Definition ret {X} (x : X) : Async X := λ _ w, (Returns x, w).
Definition bind {X Y} (m : Async X) (k : X → Async Y) : Async Y :=
  λ net w, match m net w with
           | (Returns x, w') => k x net w'
           | (Throws e, w') => (Throws e, w')
           end.

Notation "x <~ m ;; k" := (bind m (λ x, k))
  (at level 100, m at next level, right associativity).

Definition perform (e : Effect) : Async unit :=
  λ _ w, (Returns tt, mkWorld (calls w) (effects w ++ [e])).

Definition fetch (url : string) (body : Payload) : Async Response :=
  λ net w,
    let w' := mkWorld (S (calls w)) (effects w ++ [Fetch url body]) in
    match net (calls w) url body with
    | Resolves response => (Returns response, w')
    | Rejects reason => (Throws reason, w')
    end.

Definition consoleError (message : string) : Async unit := perform (ConsoleError message).
Definition sleep (ms : Z) : Async unit := perform (Sleep ms).

(** The result of [attempt]. *)
Record Attempt : Type := mkAttempt {
  a_ok : bool;
  a_status : Z;
  errorText : string
}.

(** [attempt] *)
Definition attempt (url : string) (body : Payload) : Async Attempt :=
  response <~ fetch url body ;;
  if ok response
  then ret (mkAttempt true (status response) "")
  else
    let errorText :=
      default "(could not read response body)"%string (bodyText response) in
    ret (mkAttempt false (status response) errorText).

(** [createLocalPost] *)
Definition createLocalPost (params : LocalPostParams) : Async PostResult :=
  let body :=
    mkPayload (accountId params) (locationId params) (title (postText params))
      (postText params) (bookingUrl params) in
  result <~ attempt (webhookUrl params) body ;;
  if a_ok result
  then ret (mkPostResult true false None)
  else
    _ <~ consoleError ("Make.com Webhook error (" ++ showZ (a_status result)
                       ++ "): " ++ errorText result
                       ++ ". Retrying in 10s...")%string ;;
    _ <~ sleep 10000 ;;
    retry <~ attempt (webhookUrl params) body ;;
    if a_ok retry
    then ret (mkPostResult true true None)
    else ret (mkPostResult false true
                (Some ("HTTP " ++ showZ (a_status retry) ++ ": "
                       ++ errorText retry)%string)).

(** A call on a fresh world. *)
Definition run {X} (m : Async X) (net : Network) : Completion X * World :=
  m net (mkWorld 0 []).

End Gbp.

(** * Vocabulary of the specification *)

(** ** Instants and intervals *)

(** The half-open interval [[b.1, b.2)]. *)
Definition inInterval (t : Z) (b : Interval) : Prop := b.1 ≤ t < b.2.

Definition slotInterval (s : TimeSlot) : Interval :=
  (valueOf (start s), valueOf (end_ s)).

Definition inSlot (t : Z) (s : TimeSlot) : Prop := inInterval t (slotInterval s).

(** A well-formed, non-degenerate interval. *)
Definition wellFormed (b : Interval) : Prop := b.1 < b.2.

#[global] Instance inInterval_dec t b : Decision (inInterval t b).
Proof. unfold inInterval. apply _. Defined.

#[global] Instance wellFormed_dec b : Decision (wellFormed b).
Proof. unfold wellFormed. apply _. Defined.

(** The instant [t] is busy (resp. free). *)
Definition busyAt (busy : list Interval) (t : Z) : Prop := Exists (inInterval t) busy.
Definition freeAt (free : list TimeSlot) (t : Z) : Prop := Exists (inSlot t) free.

(** Some busy interval starts after [t]. *)
Definition startsAfter (busy : list Interval) (t : Z) : Prop :=
  Exists (λ b, t < b.1) busy.

(** Every busy interval starts at [dayEnd] at the latest. *)
Definition startsByDayEnd (dayEnd : Z) (busy : list Interval) : Prop :=
  Forall (λ b, b.1 ≤ dayEnd) busy.

(** The busy intervals cover the whole window. *)
Definition fullyBooked (dayStart dayEnd : Z) (busy : list Interval) : Prop :=
  ∀ t, dayStart ≤ t < dayEnd → busyAt busy t.

(** The order that the sort establishes. *)
Definition startLe (a b : Interval) : Prop := a.1 ≤ b.1.

(** ** Properties of a sequence of free slots *)

(** The slots are sorted by start. *)
Definition sortedByStart (free : list TimeSlot) : Prop :=
  ∀ i j si sj, (i < j)%nat → free !! i = Some si → free !! j = Some sj →
    valueOf (start si) ≤ valueOf (start sj).

(** No instant lies in two different slots. *)
Definition pairwiseDisjoint (free : list TimeSlot) : Prop :=
  ∀ i j si sj, i ≠ j → free !! i = Some si → free !! j = Some sj →
    ∀ t, ¬ (inSlot t si ∧ inSlot t sj).

(** Consecutive slots do not touch: there is a gap between them. *)
Definition noTouching (free : list TimeSlot) : Prop :=
  ∀ i si sj, free !! i = Some si → free !! S i = Some sj →
    valueOf (end_ si) < valueOf (start sj).

(** Every slot has a strictly positive duration. *)
Definition positiveDurations (free : list TimeSlot) : Prop :=
  ∀ s, s ∈ free → valueOf (start s) < valueOf (end_ s).

(** Every slot lies inside the day window. *)
Definition insideWindow (dayStart dayEnd : Z) (free : list TimeSlot) : Prop :=
  ∀ s, s ∈ free → dayStart ≤ valueOf (start s) ∧ valueOf (end_ s) ≤ dayEnd.

(** Coverage invariant.  Free slots and busy intervals tile the window:
    every instant of the window is free or busy, none is both, no two
    slots share an instant, and no slot leaves the window. *)
Definition coverage (dayStart dayEnd : Z) (busy : list Interval)
    (free : list TimeSlot) : Prop :=
  (∀ t, dayStart ≤ t < dayEnd → freeAt free t ∨ busyAt busy t) ∧
  (∀ t, ¬ (freeAt free t ∧ busyAt busy t)) ∧
  pairwiseDisjoint free ∧
  insideWindow dayStart dayEnd free.

(** The shape of the output of the interval-merge engine. *)
Definition outputShape (free : list TimeSlot) : Prop :=
  sortedByStart free ∧ pairwiseDisjoint free ∧ noTouching free ∧
  positiveDurations free.

(** The output guarantee of the interval-merge engine, as specified. *)
Definition outputGuarantee (dayStart dayEnd : Z) (busy : list Interval)
    (free : list TimeSlot) : Prop :=
  outputShape free ∧ (fullyBooked dayStart dayEnd busy → free = []).


(** ** Auxiliary definitions *)

(** The loop and the final test of [calcFreeSlots] as a recursive
    function of the cursor and of the intervals still to visit. *)
Fixpoint sweepFrom (tz cursor dayEnd : Z) (sorted : list Interval) : list TimeSlot :=
  match sorted with
  | [] =>
      if cursor <? dayEnd
      then [mkTimeSlot (toISOString tz cursor) (toISOString tz dayEnd)]
      else []
  | (bStart, bEnd) :: rest =>
      (if bStart >? cursor
       then [mkTimeSlot (toISOString tz cursor) (toISOString tz bStart)]
       else [])
      ++ sweepFrom tz (Z.max cursor bEnd) dayEnd rest
  end.

(** [separated lo l]: the intervals of [l] are non-empty, start at [lo]
    or later, come in increasing order, and each one starts strictly
    after the end of the one before it. *)
Fixpoint separated (lo : Z) (l : list Interval) : Prop :=
  match l with
  | [] => True
  | (s, e) :: l' => lo ≤ s ∧ s < e ∧ separated (e + 1) l'
  end.

(** What one free slot contributes to the peak-free sequence. *)
Definition peakContribution (tz peakStart peakEnd : Z) (slot : TimeSlot)
    : list TimeSlot :=
  let s := valueOf (start slot) in
  let e := valueOf (end_ slot) in
  if decide (s < peakEnd ∧ e > peakStart) then
    if decide (Z.max s peakStart < Z.min e peakEnd)
    then [mkTimeSlot (toISOString tz (Z.max s peakStart))
                     (toISOString tz (Z.min e peakEnd))]
    else []
  else [].

(** The peak window of the day: the configured hours of the variant
    chosen by the weekend flag, applied to the start of the day. *)
Definition peakWindow (now : Z) (peakHours : PeakHours) (tz : Z) : Z * Z :=
  let todayStart := startOfDay tz now in
  let isWeekend := (day tz now =? 0) || (day tz now =? 6) in
  let peak := if isWeekend then weekend peakHours else weekday peakHours in
  (setHour tz todayStart (hr_start peak), setHour tz todayStart (hr_end peak)).

(** The busy intervals that [getAvailability] derives from the events. *)
Definition busyIntervalsOf (now : Z) (events : list CalendarEvent) : list Interval :=
  List.map (toBusyInterval now) (List.filter hasStartAndEnd events).

(** The slot of the whole day window. *)
Definition wholeDay (now tz : Z) : TimeSlot :=
  mkTimeSlot (toISOString tz (startOfDay tz now)) (toISOString tz (endOfDay tz now)).

(** The result of zero reservations: case B, the whole day window as
    the one free slot, no peak-free slot. *)
Definition zeroReservations (now tz : Z) (result : AvailabilityResult) : Prop :=
  case result = B ∧
  freeSlots result = [wholeDay now tz] ∧
  peakFreeSlots result = [].

(** Peak hours that are hours of the day, in order. *)
Definition hoursOfDay (h : HourRange) : Prop :=
  0 ≤ hr_start h ∧ hr_start h < hr_end h ∧ hr_end h ≤ 23.

(** ** Sample inputs *)

(** The default zone, ['Asia/Tokyo']: UTC+9, no daylight saving. *)
Definition Asia_Tokyo : Z := 9 * MS_PER_HOUR.

(** 2026-02-27T08:00:00+09:00, a Friday. *)
Definition friday_0800 : Z := 1772146800000.

(** 2026-03-01T08:00:00+09:00, the Sunday of the unit tests. *)
Definition sunday_0800 : Z := 1772319600000.

(** The instant at [h] o'clock of the day of [now]. *)
Definition atHour (tz now h : Z) : Z := startOfDay tz now + h * MS_PER_HOUR.

(** The constants of the unit tests of [calcFreeSlots]. *)
Definition TZ : Z := Asia_Tokyo.
Definition DAY_START : Z := startOfDay TZ sunday_0800.
Definition DAY_END : Z := endOfDay TZ sunday_0800.
Definition ms (hour : Z) : Z := atHour TZ sunday_0800 hour.

(** The peak hours of the sample configuration. *)
Definition samplePeakHours : PeakHours :=
  mkPeakHours (mkHourRange 17 21) (mkHourRange 13 17).

(** A timed event between two instants. *)
Definition timedEvent (s e : Z) : CalendarEvent :=
  mkCalendarEvent (Some (mkEventDateTime (Some s) None))
                  (Some (mkEventDateTime (Some e) None)).

(** One reservation from 9 to 19 on the sample Friday. *)
Definition sampleEvents : list CalendarEvent :=
  [timedEvent (atHour Asia_Tokyo friday_0800 9) (atHour Asia_Tokyo friday_0800 19)].

(** A store with one array, in reverse order of start. *)
Definition sampleHeap : gmap positive (list Interval) :=
  {[ 1%positive := [(18, 20); (10, 12)] ]}.

(** An event without a start, as the type of the API allows. *)
Definition eventWithoutStart (e : Z) : CalendarEvent :=
  mkCalendarEvent None (Some (mkEventDateTime (Some e) None)).

(** The hours at which a slot starts and ends, [slotHours] of the unit
    tests. *)
Definition slotHours (tz : Z) (slot : TimeSlot) : Z * Z :=
  (hour tz (valueOf (start slot)), hour tz (valueOf (end_ slot))).
(** ** More vocabulary, for the properties that follow the claims *)

(** ** Texts *)

(** [s.includes(kw)], [s.startsWith(p)], [s.endsWith(e)] *)
Definition contains (s kw : string) : Prop := ∃ a b, s = (a ++ kw ++ b)%string.
Definition startsWith (s p : string) : Prop := ∃ b, s = (p ++ b)%string.
Definition endsWith (s e : string) : Prop := ∃ a, s = (a ++ e)%string.

(** Their executable versions, for texts given by literals. *)
Fixpoint prefixb (p s : string) : bool :=
  match p, s with
  | EmptyString, _ => true
  | String a p', String b s' => Ascii.eqb a b && prefixb p' s'
  | String _ _, EmptyString => false
  end.

Fixpoint infixb (kw s : string) : bool :=
  prefixb kw s ||
  match s with
  | EmptyString => false
  | String _ s' => infixb kw s'
  end.

(** ** Hours of an event *)

(** The event [(s, e)] is counted at hour [h]. *)
Definition countedAt (tz : Z) (ev : Z * Z) (h : Z) : bool :=
  (hour tz ev.1 <=? h) && (h <? endHourExclusive tz ev.2) && (h <? 24).

(** How many events of the list are counted at hour [h], among those
    that start on a weekend day ([we = true]) or on a weekday. *)
Definition tally (tz : Z) (we : bool) (events : list (Z * Z)) (h : Z) : Z :=
  Z.of_nat (length (List.filter
    (λ ev, Bool.eqb (onWeekend tz ev.1) we && countedAt tz ev h) events)).

(** ** Posting *)

(** The text [s] is crossed by the lazy quantifier of the title
    expression, whatever follows it. *)
Definition passes (s : string) : Prop :=
  ∀ k, Gbp.lazyUntilClose (s ++ k) = String.append s <$> Gbp.lazyUntilClose k.

(** [t] differs from [x] at a position that both have. *)
Fixpoint clash (t x : string) : bool :=
  match t, x with
  | String a t', String b x' => negb (Ascii.eqb a b) || clash t' x'
  | _, _ => false
  end.

(** No closing bracket and no line terminator starts in [s]; an
    executable criterion for [passes]. *)
Fixpoint inert (s : string) : bool :=
  match s with
  | EmptyString => true
  | String _ s' =>
      forallb (λ t, clash t s) (Gbp.CLOSE :: Gbp.lineTerminators) && inert s'
  end.

(** The first occurrence of [kw] in [s]: what precedes and what
    follows it. *)
Fixpoint cut (kw s : string) : option (string * string) :=
  match Gbp.dropPrefix kw s with
  | Some r => Some (EmptyString, r)
  | None =>
      match s with
      | EmptyString => None
      | String c s' => (λ ab : string * string, (String c ab.1, ab.2)) <$> cut kw s'
      end
  end.

(** The request that [createLocalPost] sends. *)
Definition payloadOf (params : Gbp.LocalPostParams) : Gbp.Payload :=
  Gbp.mkPayload (Gbp.accountId params) (Gbp.locationId params)
    (Gbp.title (Gbp.postText params)) (Gbp.postText params) (Gbp.bookingUrl params).

(** The outcome of the call of [fetch] of rank [n] for these parameters. *)
Definition outcome (net : Gbp.Network) (params : Gbp.LocalPostParams) (n : nat)
    : Gbp.FetchOutcome :=
  net n (Gbp.webhookUrl params) (payloadOf params).

(** The webhook answered, and not with a 2xx status. *)
Definition refused (o : Gbp.FetchOutcome) : bool :=
  match o with
  | Gbp.Resolves r => negb (Gbp.ok r)
  | Gbp.Rejects _ => false
  end.

(** The text that the code makes of a refusal. *)
Definition errorTextOf (r : Gbp.Response) : string :=
  default "(could not read response body)"%string (Gbp.bodyText r).

(** Sample parameters and networks. *)
Definition sampleParams : Gbp.LocalPostParams :=
  Gbp.mkLocalPostParams "accounts/123456789012" "locations/987654321098"
    "【本日穴場です】本日2月27日(金)は終日予約にゆとりがあります。"
    "https://example.com/reserve" "https://hook.example.com/abc".

Definition overloadedOnce : Gbp.Network :=
  λ n _ _, match n with
           | O => Gbp.Resolves (Gbp.mkResponse false 503 (Some "busy"%string))
           | _ => Gbp.Resolves (Gbp.mkResponse true 200 None)
           end.

Definition alwaysDown : Gbp.Network :=
  λ _ _ _, Gbp.Resolves (Gbp.mkResponse false 500 None).

Definition unreachableOnRetry : Gbp.Network :=
  λ n _ _, match n with
           | O => Gbp.Resolves (Gbp.mkResponse false 502 (Some "bad gateway"%string))
           | _ => Gbp.Rejects "fetch failed"
           end.

(** * Lemmas *)

Lemma valueOf_toISOString tz ms : valueOf (toISOString tz ms) = ms.
Proof. reflexivity. Qed.

#[global] Instance slotInterval_inj : Inj (=) (=) slotInterval.
Proof. intros [[s1] [e1]] [[s2] [e2]]; unfold slotInterval; simpl. congruence. Qed.

(** A list of intervals given by literals is well formed. *)
Ltac literal_intervals := repeat constructor; simpl; lia.

(** ** The sort *)

Lemma insertBy_perm x l : insertBy compareStart x l ≡ₚ x :: l.
Proof.
  induction l as [|y l IH]; simpl; [done|].
  destruct (compareStart x y <=? 0); [done|].
  rewrite IH. apply Permutation_swap.
Qed.

Lemma sortBy_perm l : sortBy compareStart l ≡ₚ l.
Proof.
  induction l as [|x l IH]; simpl; [done|].
  rewrite insertBy_perm. by rewrite IH.
Qed.

Lemma insertBy_sorted x l :
  StronglySorted startLe l → StronglySorted startLe (insertBy compareStart x l).
Proof.
  induction 1 as [|y l Hs IH Hy]; simpl.
  - repeat constructor.
  - destruct (Z.leb_spec (compareStart x y) 0) as [Hc|Hc];
      unfold compareStart in Hc.
    + constructor; [by constructor|].
      constructor; [unfold startLe; lia|].
      eapply Forall_impl; [exact Hy|]. unfold startLe. intros; lia.
    + constructor; [done|].
      rewrite insertBy_perm. constructor; [unfold startLe; lia|done].
Qed.

Lemma sortBy_sorted l : StronglySorted startLe (sortBy compareStart l).
Proof.
  induction l as [|x l IH]; simpl; [constructor|].
  by apply insertBy_sorted.
Qed.

(** The sort is stable: intervals with the same start keep their order. *)
Lemma insertBy_stable x l s :
  List.filter (λ b, b.1 =? s) (insertBy compareStart x l)
  = List.filter (λ b, b.1 =? s) (x :: l).
Proof.
  induction l as [|y l IH]; [done|].
  cbn [insertBy].
  destruct (Z.leb_spec (compareStart x y) 0) as [Hc|Hc]; [done|].
  unfold compareStart in Hc.
  cbn [List.filter] in *. rewrite IH.
  destruct (Z.eqb_spec x.1 s), (Z.eqb_spec y.1 s); try done. lia.
Qed.

Lemma sortBy_stable l s :
  List.filter (λ b, b.1 =? s) (sortBy compareStart l)
  = List.filter (λ b, b.1 =? s) l.
Proof.
  induction l as [|x l IH]; [done|].
  cbn [sortBy foldr]. fold (sortBy compareStart l).
  rewrite insertBy_stable. cbn [List.filter]. by rewrite IH.
Qed.

(** ** The loop as a recursive function *)

Lemma sweep_sweepFrom_aux tz dayEnd sorted : ∀ cursor acc,
  (let '(c, fs) := foldl (sweepStep tz) (cursor, acc) sorted in
   if c <? dayEnd
   then fs ++ [mkTimeSlot (toISOString tz c) (toISOString tz dayEnd)]
   else fs) = acc ++ sweepFrom tz cursor dayEnd sorted.
Proof.
  induction sorted as [|[bStart bEnd] rest IH]; intros cursor acc; simpl.
  - destruct (cursor <? dayEnd); by rewrite ?app_nil_r.
  - rewrite IH. destruct (bStart >? cursor); by rewrite <- ?app_assoc.
Qed.

Lemma calcFreeSlots_unfold tz dayStart dayEnd busy :
  calcFreeSlots dayStart dayEnd busy tz
  = sweepFrom tz dayStart dayEnd (sortBy compareStart busy).
Proof.
  unfold calcFreeSlots.
  by rewrite (sweep_sweepFrom_aux tz dayEnd _ dayStart []).
Qed.

(** ** Which instants are free *)

Lemma sweepFrom_points tz dayEnd sorted :
  StronglySorted startLe sorted →
  ∀ cursor t,
    freeAt (sweepFrom tz cursor dayEnd sorted) t
    ↔ cursor ≤ t ∧ ¬ busyAt sorted t ∧ (t < dayEnd ∨ startsAfter sorted t).
Proof.
  unfold freeAt, busyAt, startsAfter.
  induction 1 as [|[bStart bEnd] rest Hs IH Hb]; intros cursor t; simpl.
  - rewrite !Exists_nil.
    destruct (Z.ltb_spec cursor dayEnd).
    + rewrite Exists_cons, Exists_nil.
      unfold inSlot, inInterval; simpl. lia.
    + rewrite Exists_nil. lia.
  - rewrite Exists_app, IH, !Exists_cons.
    assert (Hlater : t < bStart → ¬ Exists (inInterval t) rest).
    { intros Ht [b [Hin Hb']]%Exists_exists.
      rewrite Forall_forall in Hb. specialize (Hb b Hin).
      unfold startLe, inInterval in *; simpl in *. lia. }
    unfold inInterval at 2; simpl.
    set (P := Exists (inInterval t) rest) in *.
    set (Q := Exists (λ b : Z * Z, t < b.1) rest) in *.
    clearbody P Q. clear IH Hb Hs.
    pose proof (Z.max_spec cursor bEnd) as Hmax.
    destruct (Z.gtb_spec bStart cursor).
    + rewrite Exists_cons, Exists_nil.
      unfold inSlot, inInterval; simpl.
      destruct (decide (t < bStart)); intuition lia.
    + rewrite Exists_nil.
      destruct (decide (t < bStart)); intuition lia.
Qed.

(** The instants that [calcFreeSlots] reports free: those from
    [dayStart] on that no busy interval contains and that lie before
    [dayEnd] or before the start of some busy interval. *)
Lemma calcFreeSlots_points tz dayStart dayEnd busy t :
  freeAt (calcFreeSlots dayStart dayEnd busy tz) t
  ↔ dayStart ≤ t ∧ ¬ busyAt busy t ∧ (t < dayEnd ∨ startsAfter busy t).
Proof.
  rewrite calcFreeSlots_unfold, sweepFrom_points by apply sortBy_sorted.
  unfold busyAt, startsAfter. by rewrite !sortBy_perm.
Qed.

(** When no busy interval starts after [dayEnd], the free instants are
    exactly the instants of the window that are not busy. *)
Lemma calcFreeSlots_complement tz dayStart dayEnd busy t :
  startsByDayEnd dayEnd busy →
  freeAt (calcFreeSlots dayStart dayEnd busy tz) t
  ↔ dayStart ≤ t < dayEnd ∧ ¬ busyAt busy t.
Proof.
  intros Hby. rewrite calcFreeSlots_points.
  assert (startsAfter busy t → t < dayEnd).
  { intros (b & Hb & ?)%Exists_exists.
    unfold startsByDayEnd in Hby. rewrite Forall_forall in Hby.
    specialize (Hby b Hb). simpl in Hby. lia. }
  tauto.
Qed.

Lemma positive_slot_freeAt free s t :
  s ∈ free → valueOf (start s) ≤ t < valueOf (end_ s) → freeAt free t.
Proof. intros Hs Ht. apply Exists_exists. by exists s. Qed.

Lemma freeAt_slotInterval free t :
  freeAt free t ↔ Exists (inInterval t) (slotInterval <$> free).
Proof. unfold freeAt, inSlot. by rewrite Exists_fmap. Qed.

(** ** Separated lists of intervals *)

Lemma separated_weaken lo lo' l : lo' ≤ lo → separated lo l → separated lo' l.
Proof.
  destruct l as [|[s e] l]; simpl; [done|].
  intros ? (? & ? & ?). split_and!; [lia|done|done].
Qed.

Lemma separated_elem lo l b :
  separated lo l → b ∈ l → lo ≤ b.1 ∧ b.1 < b.2.
Proof.
  revert lo. induction l as [|[s e] l IH]; intros lo; simpl.
  - by intros _ ?%elem_of_nil.
  - intros (H1 & H2 & H3) [->|Hin]%elem_of_cons; simpl; [lia|].
    destruct (IH _ H3 Hin). lia.
Qed.

Lemma separated_lower lo l t :
  separated lo l → Exists (inInterval t) l → lo ≤ t.
Proof.
  intros Hsep (b & Hb & Ht)%Exists_exists.
  destruct (separated_elem _ _ _ Hsep Hb). unfold inInterval in Ht. lia.
Qed.

Lemma separated_lookup_lt lo l i j a b :
  separated lo l → (i < j)%nat → l !! i = Some a → l !! j = Some b → a.2 < b.1.
Proof.
  revert lo i j. induction l as [|[s e] l IH]; intros lo i j; simpl; [done|].
  intros (H1 & H2 & H3) Hij Hi Hj.
  destruct j as [|j]; [lia|]. destruct i as [|i]; simpl in *.
  - injection Hi as <-. simpl.
    apply list_elem_of_lookup_2 in Hj.
    destruct (separated_elem _ _ _ H3 Hj). lia.
  - eapply (IH _ i j); [done|lia|done|done].
Qed.

(** Two separated lists of intervals that contain the same instants are
    the same list. *)
Lemma separated_unique l1 : ∀ l2 lo1 lo2,
  separated lo1 l1 → separated lo2 l2 →
  (∀ t, Exists (inInterval t) l1 ↔ Exists (inInterval t) l2) →
  l1 = l2.
Proof.
  induction l1 as [|[s1 e1] l1 IH]; intros [|[s2 e2] l2] lo1 lo2 H1 H2 Hpts.
  - done.
  - destruct H2 as (_ & ? & _). specialize (Hpts s2).
    rewrite Exists_nil, Exists_cons in Hpts. unfold inInterval in Hpts at 1.
    simpl in Hpts. exfalso. apply Hpts. left. lia.
  - destruct H1 as (_ & ? & _). specialize (Hpts s1).
    rewrite Exists_nil, Exists_cons in Hpts. unfold inInterval in Hpts at 1.
    simpl in Hpts. exfalso. apply Hpts. left. lia.
  - destruct H1 as (_ & Hse1 & Hr1), H2 as (_ & Hse2 & Hr2).
    assert (Hpts' : ∀ t, (s1 ≤ t < e1 ∨ Exists (inInterval t) l1)
                         ↔ (s2 ≤ t < e2 ∨ Exists (inInterval t) l2)).
    { intros t. specialize (Hpts t). by rewrite !Exists_cons in Hpts. }
    assert (Hlo1 : ∀ t, Exists (inInterval t) l1 → e1 + 1 ≤ t).
    { intros t. by apply separated_lower. }
    assert (Hlo2 : ∀ t, Exists (inInterval t) l2 → e2 + 1 ≤ t).
    { intros t. by apply separated_lower. }
    assert (s1 = s2) as ->.
    { pose proof (Hpts' s1) as [Ha _]. pose proof (Hpts' s2) as [_ Hb].
      destruct Ha as [?|Ha%Hlo2]; [left; lia| |];
        (destruct Hb as [?|Hb%Hlo1]; [left; lia| |]); lia. }
    assert (e1 = e2) as ->.
    { destruct (Z.lt_trichotomy e1 e2) as [Hlt|[?|Hlt]]; [|done|].
      - pose proof (Hpts' e1) as [_ Hb].
        destruct Hb as [?|Hb%Hlo1]; [left; lia|lia|lia].
      - pose proof (Hpts' e2) as [Ha _].
        destruct Ha as [?|Ha%Hlo2]; [left; lia|lia|lia]. }
    f_equal. apply (IH l2 _ _ Hr1 Hr2). intros t. split; intros Hex.
    + pose proof (Hlo1 t Hex). destruct (proj1 (Hpts' t)) as [?|?]; [by right|lia|done].
    + pose proof (Hlo2 t Hex). destruct (proj2 (Hpts' t)) as [?|?]; [by right|lia|done].
Qed.

(** What separation means for a sequence of time slots. *)
Section Shape.
Variables (lo : Z) (free : list TimeSlot).
Hypothesis Hsep : separated lo (slotInterval <$> free).

Lemma separated_slot_lt i j si sj :
  (i < j)%nat → free !! i = Some si → free !! j = Some sj →
  valueOf (end_ si) < valueOf (start sj).
Proof.
  intros Hij Hi Hj.
  apply (separated_lookup_lt _ _ i j (slotInterval si) (slotInterval sj) Hsep Hij);
    by rewrite list_lookup_fmap, ?Hi, ?Hj.
Qed.

Lemma separated_positiveDurations : positiveDurations free.
Proof.
  intros s Hs.
  apply (separated_elem _ _ (slotInterval s) Hsep), list_elem_of_fmap.
  by exists s.
Qed.

Lemma separated_from s : s ∈ free → lo ≤ valueOf (start s).
Proof.
  intros Hs.
  apply (separated_elem _ _ (slotInterval s) Hsep), list_elem_of_fmap.
  by exists s.
Qed.

Lemma separated_sortedByStart : sortedByStart free.
Proof.
  intros i j si sj Hij Hi Hj.
  pose proof (separated_slot_lt i j si sj Hij Hi Hj).
  pose proof (separated_positiveDurations si (list_elem_of_lookup_2 _ _ _ Hi)).
  lia.
Qed.

Lemma separated_noTouching : noTouching free.
Proof. intros i si sj Hi Hj. apply (separated_slot_lt i (S i)); [lia|done..]. Qed.

Lemma separated_pairwiseDisjoint : pairwiseDisjoint free.
Proof.
  intros i j si sj Hne Hi Hj t [[? ?] [? ?]]; simpl in *.
  destruct (decide (i < j)%nat).
  - assert (valueOf (end_ si) < valueOf (start sj))
      by (apply (separated_slot_lt i j); [lia|done..]).
    lia.
  - assert (valueOf (end_ sj) < valueOf (start si))
      by (apply (separated_slot_lt j i); [lia|done..]).
    lia.
Qed.

Lemma separated_outputShape : outputShape free.
Proof.
  split_and!;
    [apply separated_sortedByStart | apply separated_pairwiseDisjoint
    |apply separated_noTouching | apply separated_positiveDurations].
Qed.

End Shape.

(** ** The result of [calcFreeSlots] *)

Lemma sweepFrom_separated tz dayEnd sorted :
  Forall wellFormed sorted →
  ∀ cursor, separated cursor (slotInterval <$> sweepFrom tz cursor dayEnd sorted).
Proof.
  induction 1 as [|[bStart bEnd] rest Hwf _ IH]; intros cursor; simpl.
  - destruct (Z.ltb_spec cursor dayEnd); simpl; [lia|done].
  - unfold wellFormed in Hwf; simpl in Hwf.
    destruct (Z.gtb_spec bStart cursor); simpl.
    + split_and!; [lia..|].
      eapply separated_weaken; [|apply IH]. lia.
    + eapply separated_weaken; [|apply IH]. lia.
Qed.

Lemma calcFreeSlots_separated tz dayStart dayEnd busy :
  Forall wellFormed busy →
  separated dayStart (slotInterval <$> calcFreeSlots dayStart dayEnd busy tz).
Proof.
  intros Hwf. rewrite calcFreeSlots_unfold.
  apply sweepFrom_separated. by rewrite sortBy_perm.
Qed.

(** The result depends only on which intervals are busy, not on their
    order or multiplicity. *)
Lemma calcFreeSlots_ext tz dayStart dayEnd busy1 busy2 :
  Forall wellFormed busy1 →
  (∀ b, b ∈ busy1 ↔ b ∈ busy2) →
  calcFreeSlots dayStart dayEnd busy1 tz = calcFreeSlots dayStart dayEnd busy2 tz.
Proof.
  intros Hwf1 Hsame.
  assert (Hwf2 : Forall wellFormed busy2).
  { rewrite Forall_forall in *. intros b Hb. apply Hwf1, Hsame, Hb. }
  assert (Hex : ∀ P : Interval → Prop, Exists P busy1 ↔ Exists P busy2).
  { intros P. rewrite !Exists_exists. by setoid_rewrite Hsame. }
  apply (inj (fmap (M:=list) slotInterval)).
  eapply separated_unique; [by apply calcFreeSlots_separated..|].
  intros t. rewrite <- !freeAt_slotInterval, !calcFreeSlots_points.
  unfold busyAt, startsAfter. by rewrite !Hex.
Qed.

Lemma calcFreeSlots_insideWindow tz dayStart dayEnd busy :
  Forall wellFormed busy → startsByDayEnd dayEnd busy →
  insideWindow dayStart dayEnd (calcFreeSlots dayStart dayEnd busy tz).
Proof.
  intros Hwf Hby s Hs.
  pose proof (calcFreeSlots_separated tz dayStart dayEnd busy Hwf) as Hsep.
  pose proof (separated_positiveDurations _ _ Hsep s Hs) as Hpos.
  split; [by apply (separated_from _ _ Hsep)|].
  assert (Hfree : freeAt (calcFreeSlots dayStart dayEnd busy tz)
                         (valueOf (end_ s) - 1)).
  { apply (positive_slot_freeAt _ s); [done|lia]. }
  apply calcFreeSlots_complement in Hfree; [lia|done].
Qed.

Lemma calcFreeSlots_tiles tz dayStart dayEnd busy :
  Forall wellFormed busy → startsByDayEnd dayEnd busy →
  coverage dayStart dayEnd busy (calcFreeSlots dayStart dayEnd busy tz).
Proof.
  intros Hwf Hby. split_and!.
  - intros t Ht. destruct (decide (busyAt busy t)); [by right|].
    left. by apply calcFreeSlots_complement.
  - intros t [Hf Hb]. apply calcFreeSlots_complement in Hf; [tauto|done].
  - eapply separated_pairwiseDisjoint, calcFreeSlots_separated, Hwf.
  - by apply calcFreeSlots_insideWindow.
Qed.

Lemma calcFreeSlots_whole_window tz dayStart dayEnd :
  calcFreeSlots dayStart dayEnd [(dayStart, dayEnd)] tz = [].
Proof.
  unfold calcFreeSlots; simpl.
  destruct (Z.gtb_spec dayStart dayStart); [lia|].
  destruct (Z.ltb_spec (dayStart `max` dayEnd) dayEnd); [lia|done].
Qed.

(** ** The day window *)

Lemma startOfDay_midnight tz now : (startOfDay tz now + tz) mod MS_PER_DAY = 0.
Proof.
  unfold startOfDay.
  replace (now - (now + tz) mod MS_PER_DAY + tz)
    with ((now + tz) / MS_PER_DAY * MS_PER_DAY).
  - apply Z_mod_mult.
  - pose proof (Z.div_mod (now + tz) MS_PER_DAY ltac:(done)).
    unfold MS_PER_DAY in *. lia.
Qed.


Lemma hour_startOfDay tz now : hour tz (startOfDay tz now) = 0.
Proof. unfold hour. by rewrite startOfDay_midnight. Qed.

(** At the start of the day, [.hour(h)] is [h] hours later. *)
Lemma setHour_startOfDay tz now h : setHour tz (startOfDay tz now) h = atHour tz now h.
Proof. unfold setHour, atHour. rewrite hour_startOfDay. f_equal. lia. Qed.

(** ** The peak-window pipeline *)

Lemma peakFreeOf_cons tz peakStart peakEnd slot free :
  peakFreeOf tz peakStart peakEnd (slot :: free)
  = peakContribution tz peakStart peakEnd slot ++ peakFreeOf tz peakStart peakEnd free.
Proof.
  unfold peakFreeOf, peakContribution; simpl.
  unfold overlapsPeak at 1.
  destruct (Z.ltb_spec (valueOf (start slot)) peakEnd);
    destruct (Z.gtb_spec (valueOf (end_ slot)) peakStart); simpl;
    try (rewrite decide_False by lia; reflexivity).
  rewrite decide_True by lia.
  unfold positiveDuration at 1; simpl.
  destruct (Z.gtb_spec (valueOf (end_ slot) `min` peakEnd)
                       (valueOf (start slot) `max` peakStart)).
  - by rewrite decide_True by lia.
  - by rewrite decide_False by lia.
Qed.

Lemma peakFreeOf_one tz peakStart peakEnd slot :
  peakFreeOf tz peakStart peakEnd [slot] = peakContribution tz peakStart peakEnd slot.
Proof. rewrite peakFreeOf_cons. apply app_nil_r. Qed.

Lemma peakFreeOf_bind tz peakStart peakEnd free :
  peakFreeOf tz peakStart peakEnd free
  = free ≫= peakContribution tz peakStart peakEnd.
Proof.
  induction free as [|slot free IH]; [done|].
  by rewrite peakFreeOf_cons, IH.
Qed.

(** ** [getAvailability] on its two paths *)

Lemma getAvailability_general now events peakHours tz :
  events ≠ [] →
  getAvailability now events peakHours tz
  = let busyIntervals :=
      List.map (toBusyInterval now) (List.filter hasStartAndEnd events) in
    let freeSlots :=
      calcFreeSlots (startOfDay tz now) (endOfDay tz now) busyIntervals tz in
    let peakFreeSlots :=
      peakFreeOf tz (peakWindow now peakHours tz).1 (peakWindow now peakHours tz).2
        freeSlots in
    {| case := if (0 <? length peakFreeSlots)%nat then A else C;
       freeSlots := freeSlots;
       peakFreeSlots := peakFreeSlots;
       isWeekend := (day tz now =? 0) || (day tz now =? 6);
       todayLabel := formatTodayLabel tz now |}.
Proof. destruct events; [done|reflexivity]. Qed.

(** Case B is reached on the fast path only. *)
Lemma getAvailability_case_B now events peakHours tz :
  case (getAvailability now events peakHours tz) = B ↔ events = [].
Proof.
  unfold getAvailability. destruct events as [|e events]; simpl; [done|].
  split; [|done]. by destruct (0 <? _)%nat.
Qed.
(** The events of the day's query start before [timeMax], the end of
    the window; the free slots of the result then tile the window. *)
Lemma getAvailability_tiles now events peakHours tz :
  events ≠ [] →
  Forall wellFormed
    (List.map (toBusyInterval now) (List.filter hasStartAndEnd events)) →
  startsByDayEnd (endOfDay tz now)
    (List.map (toBusyInterval now) (List.filter hasStartAndEnd events)) →
  coverage (startOfDay tz now) (endOfDay tz now)
    (List.map (toBusyInterval now) (List.filter hasStartAndEnd events))
    (freeSlots (getAvailability now events peakHours tz)).
Proof.
  intros Hne Hwf Hby. rewrite (getAvailability_general _ _ _ _ Hne); simpl.
  by apply calcFreeSlots_tiles.
Qed.

(** * The unit tests and scenarios, replayed on the embedding *)

(** No reservation: the whole day is one free slot. *)
Example test_no_reservation :
  calcFreeSlots DAY_START DAY_END [] TZ
  = [mkTimeSlot (toISOString TZ DAY_START) (toISOString TZ DAY_END)].
Proof. reflexivity. Qed.

(** One reservation in the middle of the day: two free slots, the last
    one ending at 23:59:59.999. *)
Example test_one_reservation :
  slotHours TZ <$> calcFreeSlots DAY_START DAY_END [(ms 10, ms 12)] TZ
  = [(0, 10); (12, 23)].
Proof. reflexivity. Qed.

(** A reservation of the whole day leaves no free slot. *)
Example test_whole_day :
  calcFreeSlots DAY_START DAY_END [(DAY_START, DAY_END)] TZ = [].
Proof. reflexivity. Qed.

(** Adjacent reservations leave no gap between them. *)
Example test_adjacent :
  slotHours TZ <$>
    calcFreeSlots DAY_START DAY_END [(ms 10, ms 14); (ms 14, ms 18)] TZ
  = [(0, 10); (18, 23)].
Proof. reflexivity. Qed.

(** Overlapping reservations are merged. *)
Example test_overlapping :
  slotHours TZ <$>
    calcFreeSlots DAY_START DAY_END [(ms 10, ms 15); (ms 12, ms 18)] TZ
  = [(0, 10); (18, 23)].
Proof. reflexivity. Qed.

(** Reservations given in reverse order are sorted first. *)
Example test_reverse_order :
  slotHours TZ <$>
    calcFreeSlots DAY_START DAY_END [(ms 18, ms 20); (ms 10, ms 12)] TZ
  = [(0, 10); (12, 18); (20, 23)].
Proof. reflexivity. Qed.

(** A reservation contained in another one. *)
Example test_contained :
  slotHours TZ <$>
    calcFreeSlots DAY_START DAY_END [(ms 10, ms 20); (ms 12, ms 16)] TZ
  = [(0, 10); (20, 23)].
Proof. reflexivity. Qed.

(** Several separate reservations. *)
Example test_separate :
  slotHours TZ <$>
    calcFreeSlots DAY_START DAY_END
      [(ms 9, ms 11); (ms 14, ms 16); (ms 19, ms 21)] TZ
  = [(0, 9); (11, 14); (16, 19); (21, 23)].
Proof. reflexivity. Qed.

(** A reservation nested in another one. *)
Example test_nested :
  calcFreeSlots 0 24 [(10, 20); (12, 16)] Asia_Tokyo
  = [mkTimeSlot (ISO 0) (ISO 10);
     mkTimeSlot (ISO 20) (ISO 24)].
Proof. reflexivity. Qed.

(** Three separate reservations, and the peak window 17-21 of a weekday. *)
Example test_gaps :
  calcFreeSlots 0 24 [(9, 11); (14, 16); (19, 21)] Asia_Tokyo
  = [mkTimeSlot (ISO 0) (ISO 9);
     mkTimeSlot (ISO 11) (ISO 14);
     mkTimeSlot (ISO 16) (ISO 19);
     mkTimeSlot (ISO 21) (ISO 24)] ∧
  peakFreeOf Asia_Tokyo 17 21
    (calcFreeSlots 0 24 [(9, 11); (14, 16); (19, 21)] Asia_Tokyo)
  = [mkTimeSlot (ISO 17) (ISO 19)].
Proof. split; reflexivity. Qed.

(** A whole run on a Friday with one reservation from 9 to 19. *)
Example test_getAvailability :
  getAvailability friday_0800 sampleEvents samplePeakHours Asia_Tokyo
  = {| case := A;
       freeSlots :=
         [mkTimeSlot (toISOString Asia_Tokyo (atHour Asia_Tokyo friday_0800 0))
                     (toISOString Asia_Tokyo (atHour Asia_Tokyo friday_0800 9));
          mkTimeSlot (toISOString Asia_Tokyo (atHour Asia_Tokyo friday_0800 19))
                     (toISOString Asia_Tokyo (endOfDay Asia_Tokyo friday_0800))];
       peakFreeSlots :=
         [mkTimeSlot (toISOString Asia_Tokyo (atHour Asia_Tokyo friday_0800 19))
                     (toISOString Asia_Tokyo (atHour Asia_Tokyo friday_0800 21))];
       isWeekend := false;
       todayLabel := "2月27日(金)" |}.
Proof. reflexivity. Qed.

(** Sorting in place does change the array it is applied to. *)
Example test_sort_in_place :
  Store.sort compareStart 1%positive sampleHeap
  = Some (1%positive, {[ 1%positive := [(10, 12); (18, 20)] ]}).
Proof.
  unfold Store.sort, sampleHeap. rewrite lookup_singleton_eq. simpl.
  by rewrite insert_singleton_eq.
Qed.

(** Outside the data model, with an interval that ends before it starts,
    the order of the input does matter. *)
Example malformed_order_dependent :
  calcFreeSlots 0 10 [(5, 3); (5, 9)] Asia_Tokyo
  ≠ calcFreeSlots 0 10 [(5, 9); (5, 3)] Asia_Tokyo.
Proof. vm_compute. discriminate. Qed.

(** The fast path looks at the events, not at the busy intervals: an
    event without a start is dropped by the filter, and the general path
    then sees a free day. *)
Example event_without_start :
  getAvailability friday_0800 [eventWithoutStart (atHour Asia_Tokyo friday_0800 12)]
    samplePeakHours Asia_Tokyo
  = {| case := A;
       freeSlots :=
         [mkTimeSlot (toISOString Asia_Tokyo (startOfDay Asia_Tokyo friday_0800))
                     (toISOString Asia_Tokyo (endOfDay Asia_Tokyo friday_0800))];
       peakFreeSlots :=
         [mkTimeSlot (toISOString Asia_Tokyo (atHour Asia_Tokyo friday_0800 17))
                     (toISOString Asia_Tokyo (atHour Asia_Tokyo friday_0800 21))];
       isWeekend := false;
       todayLabel := "2月27日(金)" |}.
Proof. reflexivity. Qed.

(** * The claims *)

(** C1, as amended.  Coverage invariant: for a day window with
    [dayStart < dayEnd] and well-formed busy intervals none of which
    starts after [dayEnd], the free slots returned by [calcFreeSlots] and
    the busy intervals tile the window: every instant of the window is
    free or busy, no instant is both, no two free slots overlap, and
    every free slot lies inside [[dayStart, dayEnd)]; the free instants
    are exactly the instants of the window that are not busy. *)
Theorem calcFreeSlots_coverage dayStart dayEnd busy tz :
  dayStart < dayEnd →
  Forall wellFormed busy →
  startsByDayEnd dayEnd busy →
  coverage dayStart dayEnd busy (calcFreeSlots dayStart dayEnd busy tz) ∧
  (∀ t, freeAt (calcFreeSlots dayStart dayEnd busy tz) t
        ↔ dayStart ≤ t < dayEnd ∧ ¬ busyAt busy t).
Proof.
  intros _ Hwf Hby. split.
  - by apply calcFreeSlots_tiles.
  - intros t. by apply calcFreeSlots_complement.
Qed.

(** C1 as stated fails: a well-formed busy interval that starts after
    [dayEnd] makes the slot before it run past the end of the window. *)
Lemma calcFreeSlots_coverage_counterexample :
  0 < 10 ∧ Forall wellFormed [(12, 15)] ∧
  calcFreeSlots 0 10 [(12, 15)] Asia_Tokyo = [mkTimeSlot (ISO 0) (ISO 12)] ∧
  ¬ coverage 0 10 [(12, 15)] (calcFreeSlots 0 10 [(12, 15)] Asia_Tokyo).
Proof.
  split_and!; [lia|literal_intervals|reflexivity|].
  intros (_ & _ & _ & Hin).
  destruct (Hin (mkTimeSlot (ISO 0) (ISO 12))) as [_ Hend].
  - vm_compute. left.
  - simpl in Hend. lia.
Qed.

Lemma calcFreeSlots_coverage_witness :
  0 < 24 ∧ Forall wellFormed [(10, 20); (12, 16)] ∧
  startsByDayEnd 24 [(10, 20); (12, 16)] ∧
  coverage 0 24 [(10, 20); (12, 16)]
    (calcFreeSlots 0 24 [(10, 20); (12, 16)] Asia_Tokyo) ∧
  (∀ t, freeAt (calcFreeSlots 0 24 [(10, 20); (12, 16)] Asia_Tokyo) t
        ↔ 0 ≤ t < 24 ∧ ¬ busyAt [(10, 20); (12, 16)] t).
Proof.
  assert (H1 : 0 < 24) by lia.
  assert (H2 : Forall wellFormed [(10, 20); (12, 16)]) by literal_intervals.
  assert (H3 : startsByDayEnd 24 [(10, 20); (12, 16)]) by literal_intervals.
  split_and!; [exact H1|exact H2|exact H3|..];
    apply (calcFreeSlots_coverage 0 24 [(10, 20); (12, 16)] Asia_Tokyo H1 H2 H3).
Defined.

(** C2, as amended.  Output guarantee: for [dayStart < dayEnd] and
    well-formed busy intervals, the slots returned by [calcFreeSlots] are
    sorted by start, pairwise non-overlapping, consecutive slots never
    touch, and every slot has strictly positive duration; if moreover no
    busy interval starts after [dayEnd] and the busy intervals cover
    [[dayStart, dayEnd)], the result is empty. *)
Theorem calcFreeSlots_output dayStart dayEnd busy tz :
  dayStart < dayEnd →
  Forall wellFormed busy →
  outputShape (calcFreeSlots dayStart dayEnd busy tz) ∧
  (startsByDayEnd dayEnd busy → fullyBooked dayStart dayEnd busy →
   calcFreeSlots dayStart dayEnd busy tz = []).
Proof.
  intros _ Hwf.
  pose proof (calcFreeSlots_separated tz dayStart dayEnd busy Hwf) as Hsep.
  split; [by eapply separated_outputShape|].
  intros Hby Hfull.
  destruct (calcFreeSlots dayStart dayEnd busy tz) as [|s free'] eqn:Hfree; [done|].
  exfalso.
  assert (Hpos : valueOf (start s) < valueOf (end_ s)).
  { apply (separated_positiveDurations _ _ Hsep). left. }
  assert (Hf : freeAt (calcFreeSlots dayStart dayEnd busy tz) (valueOf (start s))).
  { rewrite Hfree. apply (positive_slot_freeAt _ s); [left|lia]. }
  apply calcFreeSlots_complement in Hf as [Hw Hnb]; [|done].
  by apply Hnb, Hfull.
Qed.

(** C2 as stated fails in its last part: with a well-formed busy interval
    after [dayEnd], the busy intervals cover the window and a slot is
    returned all the same. *)
Lemma calcFreeSlots_output_counterexample :
  0 < 10 ∧ Forall wellFormed [(0, 10); (12, 15)] ∧
  calcFreeSlots 0 10 [(0, 10); (12, 15)] Asia_Tokyo
    = [mkTimeSlot (ISO 10) (ISO 12)] ∧
  ¬ outputGuarantee 0 10 [(0, 10); (12, 15)]
      (calcFreeSlots 0 10 [(0, 10); (12, 15)] Asia_Tokyo).
Proof.
  split_and!; [lia|literal_intervals|reflexivity|].
  intros (_ & Hempty).
  discriminate Hempty.
  intros t Ht. left. unfold inInterval; simpl. lia.
Qed.

Lemma calcFreeSlots_output_witness :
  0 < 24 ∧ Forall wellFormed [(0, 12); (12, 24)] ∧
  startsByDayEnd 24 [(0, 12); (12, 24)] ∧
  fullyBooked 0 24 [(0, 12); (12, 24)] ∧
  outputShape (calcFreeSlots 0 24 [(0, 12); (12, 24)] Asia_Tokyo) ∧
  calcFreeSlots 0 24 [(0, 12); (12, 24)] Asia_Tokyo = [].
Proof.
  assert (H1 : 0 < 24) by lia.
  assert (H2 : Forall wellFormed [(0, 12); (12, 24)]) by literal_intervals.
  assert (H3 : startsByDayEnd 24 [(0, 12); (12, 24)]) by literal_intervals.
  assert (H4 : fullyBooked 0 24 [(0, 12); (12, 24)]).
  { intros t Ht. unfold busyAt. rewrite !Exists_cons. unfold inInterval; simpl.
    destruct (decide (t < 12)); [left|right; left]; lia. }
  split_and!; [exact H1|exact H2|exact H3|exact H4|..].
  - exact (proj1 (calcFreeSlots_output 0 24 [(0, 12); (12, 24)] Asia_Tokyo H1 H2)).
  - exact (proj2 (calcFreeSlots_output 0 24 [(0, 12); (12, 24)] Asia_Tokyo H1 H2)
             H3 H4).
Defined.

(** With no event the fast path is taken. *)
Lemma getAvailability_no_events now peakHours tz :
  zeroReservations now tz (getAvailability now [] peakHours tz).
Proof. by unfold getAvailability, zeroReservations, wholeDay. Qed.

(** C3, as amended.  Zero reservations.  When the calendar returns no
    event, the result is case B, with exactly one free slot, equal to the
    whole day window, and an empty peak-free sequence, whatever the day
    window and the peak hours.  When events are returned but none of
    them gives a busy interval, the free slots are the same, but the
    result is not case B: the peak-free slots are the whole day clamped to
    the peak window, and the case is A when there is one and C otherwise;
    for peak hours of the day it is case A, with the peak window as the
    one peak-free slot. *)
Theorem getAvailability_no_busy_interval now events peakHours tz :
  busyIntervalsOf now events = [] →
  freeSlots (getAvailability now events peakHours tz) = [wholeDay now tz] ∧
  (events = [] → zeroReservations now tz (getAvailability now events peakHours tz)) ∧
  (events ≠ [] →
   case (getAvailability now events peakHours tz) ≠ B ∧
   peakFreeSlots (getAvailability now events peakHours tz)
   = peakFreeOf tz (peakWindow now peakHours tz).1 (peakWindow now peakHours tz).2
       [wholeDay now tz] ∧
   (case (getAvailability now events peakHours tz) = A
    ↔ peakFreeSlots (getAvailability now events peakHours tz) ≠ []) ∧
   (hoursOfDay (weekday peakHours) → hoursOfDay (weekend peakHours) →
    case (getAvailability now events peakHours tz) = A ∧
    peakFreeSlots (getAvailability now events peakHours tz)
    = [mkTimeSlot (toISOString tz (peakWindow now peakHours tz).1)
                  (toISOString tz (peakWindow now peakHours tz).2)])).
Proof.
  intros Hb.
  destruct (decide (events = [])) as [->|Hne].
  { destruct (getAvailability_no_events now peakHours tz) as (Hc & Hf & Hp).
    split_and!; [exact Hf|by intros _|done]. }
  assert (Hfree : calcFreeSlots (startOfDay tz now) (endOfDay tz now) [] tz
                  = [wholeDay now tz]).
  { unfold calcFreeSlots, wholeDay. simpl.
    destruct (Z.ltb_spec (startOfDay tz now) (endOfDay tz now)) as [|Hge]; [done|].
    unfold endOfDay, MS_PER_DAY in Hge. lia. }
  rewrite (getAvailability_general _ _ _ _ Hne). cbv zeta.
  fold (busyIntervalsOf now events). rewrite Hb, Hfree. cbn [case freeSlots peakFreeSlots].
  split_and!; [done|done|].
  intros _. split_and!.
  - by destruct (0 <? _)%nat.
  - done.
  - destruct (peakFreeOf _ _ _ _); simpl; split; done.
  - intros Hwd Hwe. rewrite peakFreeOf_one.
    assert (Hw : 0 ≤ (peakWindow now peakHours tz).1 - startOfDay tz now ∧
                 (peakWindow now peakHours tz).1 < (peakWindow now peakHours tz).2 ∧
                 (peakWindow now peakHours tz).2 - startOfDay tz now
                 ≤ 23 * MS_PER_HOUR).
    { unfold peakWindow, hoursOfDay in *. cbv zeta. cbn [fst snd].
      rewrite !setHour_startOfDay. unfold atHour, MS_PER_HOUR.
      destruct ((day tz now =? 0) || (day tz now =? 6)); lia. }
    unfold peakContribution, wholeDay, endOfDay, MS_PER_DAY, MS_PER_HOUR in *.
    cbn [start end_ valueOf toISOString] in *.
    repeat case_decide; try lia.
    rewrite Z.max_r, Z.min_r by lia. done.
Qed.

(** C3 as stated fails: an event without a start gives no busy
    interval, and the result is case A with the peak window free, not
    case B. *)
Lemma getAvailability_no_busy_interval_counterexample :
  busyIntervalsOf friday_0800 [eventWithoutStart (atHour Asia_Tokyo friday_0800 12)]
  = [] ∧
  case (getAvailability friday_0800
          [eventWithoutStart (atHour Asia_Tokyo friday_0800 12)]
          samplePeakHours Asia_Tokyo) = A ∧
  peakFreeSlots (getAvailability friday_0800
                   [eventWithoutStart (atHour Asia_Tokyo friday_0800 12)]
                   samplePeakHours Asia_Tokyo)
  = [mkTimeSlot (toISOString Asia_Tokyo (atHour Asia_Tokyo friday_0800 17))
                (toISOString Asia_Tokyo (atHour Asia_Tokyo friday_0800 21))] ∧
  ¬ zeroReservations friday_0800 Asia_Tokyo
      (getAvailability friday_0800
         [eventWithoutStart (atHour Asia_Tokyo friday_0800 12)]
         samplePeakHours Asia_Tokyo).
Proof.
  split_and!; [reflexivity..|].
  intros [H _]. vm_compute in H. discriminate H.
Qed.

Lemma getAvailability_no_busy_interval_witness :
  busyIntervalsOf friday_0800 [eventWithoutStart (atHour Asia_Tokyo friday_0800 12)]
  = [] ∧
  freeSlots (getAvailability friday_0800
               [eventWithoutStart (atHour Asia_Tokyo friday_0800 12)]
               samplePeakHours Asia_Tokyo)
  = [wholeDay friday_0800 Asia_Tokyo].
Proof.
  assert (H : busyIntervalsOf friday_0800
                [eventWithoutStart (atHour Asia_Tokyo friday_0800 12)] = [])
    by reflexivity.
  split; [exact H|].
  exact (proj1 (getAvailability_no_busy_interval friday_0800
                  [eventWithoutStart (atHour Asia_Tokyo friday_0800 12)]
                  samplePeakHours Asia_Tokyo H)).
Defined.

(** C4.  Full-day booking: a single busy interval equal to the day
    window gives no free slot, and [getAvailability] returns, as an
    ordinary result, case C with no free slot and an empty peak-free
    sequence. *)
Theorem getAvailability_full_day now e peakHours tz :
  hasStartAndEnd e = true →
  toBusyInterval now e = (startOfDay tz now, endOfDay tz now) →
  (∀ dayStart dayEnd, calcFreeSlots dayStart dayEnd [(dayStart, dayEnd)] tz = []) ∧
  getAvailability now [e] peakHours tz
  = {| case := C;
       freeSlots := [];
       peakFreeSlots := [];
       isWeekend := (day tz now =? 0) || (day tz now =? 6);
       todayLabel := formatTodayLabel tz now |}.
Proof.
  intros He Hb. split; [intros; apply calcFreeSlots_whole_window|].
  unfold getAvailability; simpl.
  rewrite He; simpl. rewrite Hb, calcFreeSlots_whole_window. done.
Qed.

Lemma getAvailability_full_day_witness :
  hasStartAndEnd (timedEvent 1772118000000 1772204399999) = true ∧
  toBusyInterval friday_0800 (timedEvent 1772118000000 1772204399999)
  = (startOfDay Asia_Tokyo friday_0800, endOfDay Asia_Tokyo friday_0800) ∧
  getAvailability friday_0800 [timedEvent 1772118000000 1772204399999]
    samplePeakHours Asia_Tokyo
  = {| case := C;
       freeSlots := [];
       peakFreeSlots := [];
       isWeekend := false;
       todayLabel := "2月27日(金)" |}.
Proof.
  assert (H1 : hasStartAndEnd (timedEvent 1772118000000 1772204399999) = true)
    by reflexivity.
  assert (H2 : toBusyInterval friday_0800 (timedEvent 1772118000000 1772204399999)
               = (startOfDay Asia_Tokyo friday_0800, endOfDay Asia_Tokyo friday_0800))
    by reflexivity.
  split_and!; [exact H1|exact H2|].
  exact (proj2 (getAvailability_full_day friday_0800
                  (timedEvent 1772118000000 1772204399999)
                  samplePeakHours Asia_Tokyo H1 H2)).
Defined.

(** C5.  Peak clamp.  Each free slot contributes to the peak-free
    sequence on its own and in order.  A slot [[s, e)] that does not
    satisfy [s < peakEnd ∧ e > peakStart] contributes nothing; one that
    does is clamped to [[max s peakStart, min e peakEnd)], and the clamped
    slot is kept unless its duration is zero (or less).  For a slot and a
    peak window of positive duration, the slot contributes its clamped
    slot iff [s < peakEnd ∧ e > peakStart].  On any day, the free slot
    10:00-12:00 against the peak window 11:00-13:00 gives 11:00-12:00,
    and the free slot 09:00-10:00 gives nothing. *)
Theorem peak_clamp tz :
  (∀ peakStart peakEnd free,
     peakFreeOf tz peakStart peakEnd free
     = free ≫= λ slot, peakFreeOf tz peakStart peakEnd [slot]) ∧
  (∀ peakStart peakEnd slot,
     ¬ (valueOf (start slot) < peakEnd ∧ valueOf (end_ slot) > peakStart) →
     peakFreeOf tz peakStart peakEnd [slot] = []) ∧
  (∀ peakStart peakEnd slot,
     valueOf (start slot) < peakEnd ∧ valueOf (end_ slot) > peakStart →
     peakFreeOf tz peakStart peakEnd [slot]
     = if decide (Z.max (valueOf (start slot)) peakStart
                  < Z.min (valueOf (end_ slot)) peakEnd)
       then [mkTimeSlot (toISOString tz (Z.max (valueOf (start slot)) peakStart))
                        (toISOString tz (Z.min (valueOf (end_ slot)) peakEnd))]
       else []) ∧
  (∀ peakStart peakEnd slot,
     valueOf (start slot) < valueOf (end_ slot) → peakStart < peakEnd →
     (peakFreeOf tz peakStart peakEnd [slot]
      = [mkTimeSlot (toISOString tz (Z.max (valueOf (start slot)) peakStart))
                    (toISOString tz (Z.min (valueOf (end_ slot)) peakEnd))]
      ↔ valueOf (start slot) < peakEnd ∧ valueOf (end_ slot) > peakStart) ∧
     (peakFreeOf tz peakStart peakEnd [slot] ≠ []
      ↔ valueOf (start slot) < peakEnd ∧ valueOf (end_ slot) > peakStart)) ∧
  (∀ now,
     peakFreeOf tz (setHour tz (startOfDay tz now) 11)
       (setHour tz (startOfDay tz now) 13)
       [mkTimeSlot (toISOString tz (atHour tz now 10))
                   (toISOString tz (atHour tz now 12))]
     = [mkTimeSlot (toISOString tz (atHour tz now 11))
                   (toISOString tz (atHour tz now 12))] ∧
     peakFreeOf tz (setHour tz (startOfDay tz now) 11)
       (setHour tz (startOfDay tz now) 13)
       [mkTimeSlot (toISOString tz (atHour tz now 9))
                   (toISOString tz (atHour tz now 10))]
     = []).
Proof.
  split_and!.
  - intros. rewrite peakFreeOf_bind. apply list_bind_ext; [|done].
    intros slot. by rewrite peakFreeOf_one.
  - intros ps pe slot Hno. rewrite peakFreeOf_one. unfold peakContribution.
    by rewrite decide_False.
  - intros ps pe slot Hyes. rewrite peakFreeOf_one. unfold peakContribution.
    by rewrite decide_True.
  - intros ps pe slot Hslot Hpeak. rewrite peakFreeOf_one. unfold peakContribution.
    destruct (decide (valueOf (start slot) < pe ∧ valueOf (end_ slot) > ps))
      as [Hyes|Hno].
    + rewrite decide_True by lia. split; split; done.
    + split; split; done.
  - intros now. rewrite !setHour_startOfDay, !peakFreeOf_one.
    unfold peakContribution, atHour; simpl.
    split.
    + rewrite decide_True by (unfold MS_PER_HOUR; lia).
      rewrite decide_True by (unfold MS_PER_HOUR; lia).
      do 3 f_equal; unfold MS_PER_HOUR; lia.
    + rewrite decide_False by (unfold MS_PER_HOUR; lia). done.
Qed.

Lemma peak_clamp_witness :
  valueOf (start (mkTimeSlot (ISO 10) (ISO 12))) < 13 ∧
  valueOf (end_ (mkTimeSlot (ISO 10) (ISO 12))) > 11 ∧
  peakFreeOf Asia_Tokyo 11 13 [mkTimeSlot (ISO 10) (ISO 12)]
  = [mkTimeSlot (ISO 11) (ISO 12)].
Proof.
  assert (H : valueOf (start (mkTimeSlot (ISO 10) (ISO 12))) < 13 ∧
              valueOf (end_ (mkTimeSlot (ISO 10) (ISO 12))) > 11)
    by (simpl; lia).
  split_and!; [apply H..|].
  exact (proj1 (proj2 (proj2 (peak_clamp Asia_Tokyo))) 11 13
           (mkTimeSlot (ISO 10) (ISO 12)) H).
Defined.

(** C6.  Classification rule: with at least one reservation, the
    peak-free sequence of the result is the clamped sequence computed
    from its free slots, and the case is A iff that sequence is non-empty
    and C otherwise; hence, in every result, the peak-free sequence is
    non-empty only for case A. *)
Theorem getAvailability_classification now events peakHours tz :
  (events ≠ [] →
   peakFreeSlots (getAvailability now events peakHours tz)
   = peakFreeOf tz (peakWindow now peakHours tz).1 (peakWindow now peakHours tz).2
       (freeSlots (getAvailability now events peakHours tz)) ∧
   (case (getAvailability now events peakHours tz) = A
    ↔ peakFreeSlots (getAvailability now events peakHours tz) ≠ []) ∧
   (case (getAvailability now events peakHours tz) = C
    ↔ peakFreeSlots (getAvailability now events peakHours tz) = [])) ∧
  (peakFreeSlots (getAvailability now events peakHours tz) ≠ [] →
   case (getAvailability now events peakHours tz) = A).
Proof.
  destruct (decide (events = [])) as [->|Hne].
  - split; [done|]. by unfold getAvailability; simpl.
  - rewrite (getAvailability_general _ _ _ _ Hne); simpl.
    destruct (peakFreeOf tz _ _ _) as [|slot peak]; simpl.
    + split; [intros _; split_and!|]; done.
    + split; [intros _; split_and!|]; done.
Qed.

Lemma getAvailability_classification_witness :
  sampleEvents ≠ [] ∧
  peakFreeSlots (getAvailability friday_0800 sampleEvents samplePeakHours Asia_Tokyo)
  ≠ [] ∧
  case (getAvailability friday_0800 sampleEvents samplePeakHours Asia_Tokyo) = A.
Proof.
  assert (H1 : sampleEvents ≠ []) by done.
  assert (H2 : peakFreeSlots
                 (getAvailability friday_0800 sampleEvents samplePeakHours Asia_Tokyo)
               ≠ []) by (vm_compute; discriminate).
  split_and!; [exact H1|exact H2|].
  exact (proj2 (proj1 (proj2 (proj1
    (getAvailability_classification friday_0800 sampleEvents samplePeakHours
       Asia_Tokyo) H1))) H2).
Defined.

(** C7.  Order independence: for every day window, two sequences of
    (well-formed) busy intervals that are permutations of each other give
    the same free slots, in the same order. *)
Theorem calcFreeSlots_permutation dayStart dayEnd busy1 busy2 tz :
  Forall wellFormed busy1 →
  busy1 ≡ₚ busy2 →
  calcFreeSlots dayStart dayEnd busy1 tz = calcFreeSlots dayStart dayEnd busy2 tz.
Proof.
  intros Hwf Hperm. apply calcFreeSlots_ext; [done|].
  intros b. by rewrite Hperm.
Qed.

Lemma calcFreeSlots_permutation_witness :
  Forall wellFormed [(18, 20); (10, 12); (10, 15)] ∧
  [(18, 20); (10, 12); (10, 15)] ≡ₚ [(10, 15); (18, 20); (10, 12)] ∧
  calcFreeSlots 0 24 [(18, 20); (10, 12); (10, 15)] Asia_Tokyo
  = calcFreeSlots 0 24 [(10, 15); (18, 20); (10, 12)] Asia_Tokyo.
Proof.
  assert (H1 : Forall wellFormed [(18, 20); (10, 12); (10, 15)])
    by literal_intervals.
  assert (H2 : [(18, 20); (10, 12); (10, 15)] ≡ₚ [(10, 15); (18, 20); (10, 12)]).
  { apply (Permutation_cons_app [(10, 15)] [(10, 12)] (18, 20)).
    apply Permutation_swap. }
  split_and!; [exact H1|exact H2|].
  exact (calcFreeSlots_permutation 0 24 _ _ Asia_Tokyo H1 H2).
Defined.

(** C8.  Idempotence of merge: for every day window and sequence of
    (well-formed) busy intervals, inserting, at any position, a duplicate
    of a busy interval that is already present leaves the result of
    [calcFreeSlots] unchanged. *)
Theorem calcFreeSlots_duplicate dayStart dayEnd busy1 busy2 b tz :
  Forall wellFormed (busy1 ++ busy2) →
  b ∈ busy1 ++ busy2 →
  calcFreeSlots dayStart dayEnd (busy1 ++ b :: busy2) tz
  = calcFreeSlots dayStart dayEnd (busy1 ++ busy2) tz.
Proof.
  intros Hwf Hb. symmetry. apply calcFreeSlots_ext; [done|].
  intros x. rewrite !elem_of_app, elem_of_cons.
  rewrite elem_of_app in Hb. split; [tauto|].
  intros [?|[->|?]]; tauto.
Qed.

Lemma calcFreeSlots_duplicate_witness :
  Forall wellFormed ([(10, 12)] ++ [(14, 16); (19, 21)]) ∧
  (14, 16) ∈ [(10, 12)] ++ [(14, 16); (19, 21)] ∧
  calcFreeSlots 0 24 ([(10, 12)] ++ (14, 16) :: [(14, 16); (19, 21)]) Asia_Tokyo
  = calcFreeSlots 0 24 ([(10, 12)] ++ [(14, 16); (19, 21)]) Asia_Tokyo.
Proof.
  assert (H1 : Forall wellFormed ([(10, 12)] ++ [(14, 16); (19, 21)]))
    by literal_intervals.
  assert (H2 : (14, 16) ∈ [(10, 12)] ++ [(14, 16); (19, 21)]).
  { apply elem_of_app. right. left. }
  split_and!; [exact H1|exact H2|].
  exact (calcFreeSlots_duplicate 0 24 [(10, 12)] [(14, 16); (19, 21)] (14, 16)
           Asia_Tokyo H1 H2).
Defined.



(** C10.  [calcFreeSlots] leaves its argument alone: called on a
    reference to the caller's array, it returns the free slots of the
    elements of that array, and afterwards the array holds the same pairs
    in the same order, as does every other array that existed before the
    call (the sort is applied to a copy). *)
Theorem calcFreeSlots_preserves_argument dayStart dayEnd busyIntervals tz xs σ :
  σ !! busyIntervals = Some xs →
  ∃ σ', Store.calcFreeSlots dayStart dayEnd busyIntervals tz σ
        = Some (calcFreeSlots dayStart dayEnd xs tz, σ') ∧
        σ' !! busyIntervals = Some xs ∧
        (∀ r, is_Some (σ !! r) → σ' !! r = σ !! r).
Proof.
  intros Hxs.
  set (copy := fresh (dom σ)).
  assert (Hfresh : σ !! copy = None).
  { apply not_elem_of_dom, is_fresh. }
  exists (<[copy := sortBy compareStart xs]> (<[copy := xs]> σ)).
  split_and!.
  - unfold Store.calcFreeSlots, Store.bind, Store.spread, Store.sort,
      Store.elements, Store.ret.
    rewrite Hxs. fold copy. simpl.
    rewrite lookup_insert_eq. simpl. rewrite lookup_insert_eq. reflexivity.
  - rewrite !lookup_insert_ne; [done|congruence..].
  - intros r [ys Hr]. rewrite !lookup_insert_ne; [done|congruence..].
Qed.

Lemma calcFreeSlots_preserves_argument_witness :
  sampleHeap !! 1%positive = Some [(18, 20); (10, 12)] ∧
  ∃ σ', Store.calcFreeSlots 0 24 1%positive Asia_Tokyo sampleHeap
        = Some (calcFreeSlots 0 24 [(18, 20); (10, 12)] Asia_Tokyo, σ') ∧
        σ' !! 1%positive = Some [(18, 20); (10, 12)] ∧
        (∀ r, is_Some (sampleHeap !! r) → σ' !! r = sampleHeap !! r).
Proof.
  assert (H : sampleHeap !! 1%positive = Some [(18, 20); (10, 12)])
    by apply lookup_singleton_eq.
  split; [exact H|].
  exact (calcFreeSlots_preserves_argument 0 24 1%positive Asia_Tokyo _ _ H).
Defined.

(** * Further properties of [calcFreeSlots] *)

(** Two results with the same free instants are the same list. *)
Lemma calcFreeSlots_eq_of_instants tz dayStart dayEnd busy1 busy2 :
  Forall wellFormed busy1 → Forall wellFormed busy2 →
  (∀ t, freeAt (calcFreeSlots dayStart dayEnd busy1 tz) t
        ↔ freeAt (calcFreeSlots dayStart dayEnd busy2 tz) t) →
  calcFreeSlots dayStart dayEnd busy1 tz = calcFreeSlots dayStart dayEnd busy2 tz.
Proof.
  intros Hwf1 Hwf2 Hsame.
  apply (inj (fmap (M:=list) slotInterval)).
  eapply separated_unique; [by apply calcFreeSlots_separated..|].
  intros t. by rewrite <- !freeAt_slotInterval.
Qed.

Lemma sweepFrom_endpoints tz dayEnd sorted : ∀ cursor s,
  s ∈ sweepFrom tz cursor dayEnd sorted →
  (valueOf (start s) = cursor ∨ ∃ b, b ∈ sorted ∧ valueOf (start s) = b.2) ∧
  (valueOf (end_ s) = dayEnd ∨ ∃ b, b ∈ sorted ∧ valueOf (end_ s) = b.1).
Proof.
  induction sorted as [|[bStart bEnd] rest IH]; intros cursor s; simpl.
  - destruct (cursor <? dayEnd); [|by intros ?%elem_of_nil].
    intros ->%list_elem_of_singleton. simpl. by split; left.
  - intros [Hs|Hs]%elem_of_app.
    + destruct (bStart >? cursor); [|by apply elem_of_nil in Hs].
      apply list_elem_of_singleton in Hs as ->. simpl. split; [by left|].
      right. exists (bStart, bEnd). split; [left|done].
    + destruct (IH _ _ Hs) as [H1 H2]. split.
      * destruct H1 as [H1|(b & Hb & H1)].
        -- destruct (Z.max_spec cursor bEnd) as [[_ Hm]|[_ Hm]];
             rewrite Hm in H1; [right|by left].
           exists (bStart, bEnd). split; [left|done].
        -- right. exists b. split; [by right|done].
      * destruct H2 as [H2|(b & Hb & H2)]; [by left|].
        right. exists b. split; [by right|done].
Qed.

Lemma sweepFrom_length tz dayEnd sorted : ∀ cursor,
  (length (sweepFrom tz cursor dayEnd sorted) ≤ length sorted + 1)%nat.
Proof.
  induction sorted as [|[bStart bEnd] rest IH]; intros cursor; simpl.
  - destruct (cursor <? dayEnd); simpl; lia.
  - rewrite length_app. specialize (IH (cursor `max` bEnd)).
    destruct (bStart >? cursor); simpl; lia.
Qed.

(** X1.  The free instants, without any precondition: an instant is in a
    slot returned by [calcFreeSlots] iff it is not before [dayStart], no
    busy interval contains it, and it lies before [dayEnd] or before the
    start of some busy interval. *)
Theorem calcFreeSlots_free_instants dayStart dayEnd busy tz t :
  freeAt (calcFreeSlots dayStart dayEnd busy tz) t
  ↔ dayStart ≤ t ∧ ¬ busyAt busy t ∧ (t < dayEnd ∨ startsAfter busy t).
Proof. apply calcFreeSlots_points. Qed.

(** X2.  Every returned slot starts at [dayStart] or at the end of a busy
    interval, and ends at [dayEnd] or at the start of a busy interval;
    and there is at most one slot more than there are busy intervals. *)
Theorem calcFreeSlots_endpoints dayStart dayEnd busy tz :
  (∀ s, s ∈ calcFreeSlots dayStart dayEnd busy tz →
     (valueOf (start s) = dayStart ∨ ∃ b, b ∈ busy ∧ valueOf (start s) = b.2) ∧
     (valueOf (end_ s) = dayEnd ∨ ∃ b, b ∈ busy ∧ valueOf (end_ s) = b.1)) ∧
  (length (calcFreeSlots dayStart dayEnd busy tz) ≤ length busy + 1)%nat.
Proof.
  rewrite calcFreeSlots_unfold. split.
  - intros s Hs. apply sweepFrom_endpoints in Hs.
    by setoid_rewrite sortBy_perm in Hs.
  - rewrite <- (Permutation_length (sortBy_perm busy)). apply sweepFrom_length.
Qed.

(** X3.  A reservation that ended before the day starts changes nothing:
    a well-formed busy interval with [end ≤ dayStart], inserted anywhere
    among well-formed busy intervals, leaves the result unchanged. *)
Theorem calcFreeSlots_before_window dayStart dayEnd busy1 busy2 b tz :
  Forall wellFormed (busy1 ++ busy2) →
  wellFormed b →
  b.2 ≤ dayStart →
  calcFreeSlots dayStart dayEnd (busy1 ++ b :: busy2) tz
  = calcFreeSlots dayStart dayEnd (busy1 ++ busy2) tz.
Proof.
  intros Hwf Hb Hend.
  assert (Hwf' : Forall wellFormed (busy1 ++ b :: busy2)).
  { apply Forall_app in Hwf as [? ?]. apply Forall_app. split; [done|].
    by constructor. }
  apply calcFreeSlots_eq_of_instants; [done..|].
  intros t. rewrite !calcFreeSlots_points. unfold busyAt, startsAfter.
  rewrite !Exists_app, !Exists_cons.
  unfold wellFormed, inInterval in *. intuition lia.
Qed.

Lemma calcFreeSlots_before_window_witness :
  Forall wellFormed ([(10, 12)] ++ [(14, 16)]) ∧ wellFormed (-5, -1) ∧
  (-5, -1).2 ≤ 0 ∧
  calcFreeSlots 0 24 ([(10, 12)] ++ (-5, -1) :: [(14, 16)]) Asia_Tokyo
  = calcFreeSlots 0 24 ([(10, 12)] ++ [(14, 16)]) Asia_Tokyo.
Proof.
  assert (H1 : Forall wellFormed ([(10, 12)] ++ [(14, 16)])) by literal_intervals.
  assert (H2 : wellFormed (-5, -1)) by done.
  assert (H3 : (-5, -1).2 ≤ 0) by (simpl; lia).
  split_and!; [exact H1|exact H2|exact H3|].
  exact (calcFreeSlots_before_window 0 24 [(10, 12)] [(14, 16)] (-5, -1)
           Asia_Tokyo H1 H2 H3).
Defined.

(** X4.  Overlapping or adjacent reservations act as their union: two
    well-formed busy intervals [(a1, b1)] and [(a2, b2)] with
    [a1 ≤ a2 ≤ b1] can be replaced by [(a1, max b1 b2)] without changing
    the result. *)
Theorem calcFreeSlots_merge dayStart dayEnd a1 b1 a2 b2 busy tz :
  Forall wellFormed busy →
  a1 < b1 → a2 < b2 → a1 ≤ a2 ≤ b1 →
  calcFreeSlots dayStart dayEnd ((a1, b1) :: (a2, b2) :: busy) tz
  = calcFreeSlots dayStart dayEnd ((a1, Z.max b1 b2) :: busy) tz.
Proof.
  intros Hwf H1 H2 H12.
  apply calcFreeSlots_eq_of_instants.
  - by repeat constructor.
  - constructor; [unfold wellFormed; simpl; lia|done].
  - intros t. rewrite !calcFreeSlots_points. unfold busyAt, startsAfter.
    rewrite !Exists_cons. unfold inInterval; simpl.
    pose proof (Z.max_spec b1 b2). intuition lia.
Qed.

Lemma calcFreeSlots_merge_witness :
  Forall wellFormed [(19, 21)] ∧ 10 < 14 ∧ 14 < 18 ∧ 10 ≤ 14 ≤ 14 ∧
  calcFreeSlots 0 24 [(10, 14); (14, 18); (19, 21)] Asia_Tokyo
  = calcFreeSlots 0 24 [(10, Z.max 14 18); (19, 21)] Asia_Tokyo.
Proof.
  assert (H0 : Forall wellFormed [(19, 21)]) by literal_intervals.
  assert (H1 : 10 < 14) by lia.
  assert (H2 : 14 < 18) by lia.
  assert (H3 : 10 ≤ 14 ≤ 14) by lia.
  split_and!; [exact H0|exact H1|exact H2|apply H3..|].
  exact (calcFreeSlots_merge 0 24 10 14 14 18 [(19, 21)] Asia_Tokyo H0 H1 H2 H3).
Defined.

(** X5.  One more reservation removes exactly its own instants from the
    free time, provided it does not start after [dayEnd]; in particular
    it never creates free time. *)
Theorem calcFreeSlots_add_busy dayStart dayEnd b busy tz t :
  b.1 ≤ dayEnd →
  freeAt (calcFreeSlots dayStart dayEnd (b :: busy) tz) t
  ↔ freeAt (calcFreeSlots dayStart dayEnd busy tz) t ∧ ¬ inInterval t b.
Proof.
  intros Hb. rewrite !calcFreeSlots_points. unfold busyAt, startsAfter.
  rewrite !Exists_cons. unfold inInterval. intuition lia.
Qed.

Lemma calcFreeSlots_add_busy_witness :
  (12, 16).1 ≤ 24 ∧
  (freeAt (calcFreeSlots 0 24 [(12, 16); (10, 14)] Asia_Tokyo) 17
   ↔ freeAt (calcFreeSlots 0 24 [(10, 14)] Asia_Tokyo) 17 ∧ ¬ inInterval 17 (12, 16)).
Proof.
  assert (H : (12, 16).1 ≤ 24) by (simpl; lia).
  split; [exact H|].
  exact (calcFreeSlots_add_busy 0 24 (12, 16) [(10, 14)] Asia_Tokyo 17 H).
Defined.

(** * Further properties of [getAvailability] *)

Lemma getAvailability_busy now events peakHours tz :
  events ≠ [] →
  freeSlots (getAvailability now events peakHours tz)
  = calcFreeSlots (startOfDay tz now) (endOfDay tz now)
      (busyIntervalsOf now events) tz ∧
  peakFreeSlots (getAvailability now events peakHours tz)
  = peakFreeOf tz (peakWindow now peakHours tz).1 (peakWindow now peakHours tz).2
      (calcFreeSlots (startOfDay tz now) (endOfDay tz now)
         (busyIntervalsOf now events) tz).
Proof. intros Hne. by rewrite (getAvailability_general _ _ _ _ Hne). Qed.

Lemma peakContribution_instants tz peakStart peakEnd slot t :
  freeAt (peakContribution tz peakStart peakEnd slot) t
  ↔ inSlot t slot ∧ peakStart ≤ t < peakEnd.
Proof.
  unfold peakContribution, freeAt, inSlot, inInterval.
  repeat case_decide; rewrite ?Exists_cons, Exists_nil; simpl; lia.
Qed.

Lemma peakFreeOf_instants tz peakStart peakEnd free t :
  freeAt (peakFreeOf tz peakStart peakEnd free) t
  ↔ freeAt free t ∧ peakStart ≤ t < peakEnd.
Proof.
  induction free as [|slot free IH].
  - unfold freeAt. rewrite !Exists_nil. tauto.
  - rewrite peakFreeOf_cons. unfold freeAt in *.
    rewrite Exists_app, Exists_cons, IH.
    pose proof (peakContribution_instants tz peakStart peakEnd slot t) as Hc.
    unfold freeAt in Hc. rewrite Hc. tauto.
Qed.

Lemma peakFreeOf_separated tz peakStart peakEnd free : ∀ lo,
  separated lo (slotInterval <$> free) →
  separated lo (slotInterval <$> peakFreeOf tz peakStart peakEnd free).
Proof.
  induction free as [|[[s] [e]] free IH]; intros lo; [done|].
  rewrite peakFreeOf_cons. cbn [fmap list_fmap slotInterval start end_ valueOf].
  intros (Hlo & Hse & Hrest). specialize (IH _ Hrest).
  unfold peakContribution; simpl in *.
  repeat case_decide; simpl.
  - split_and!; [lia..|]. eapply separated_weaken; [|exact IH]. lia.
  - eapply separated_weaken; [|exact IH]. lia.
  - eapply separated_weaken; [|exact IH]. lia.
Qed.

Lemma peakFreeOf_inside tz peakStart peakEnd free :
  insideWindow peakStart peakEnd (peakFreeOf tz peakStart peakEnd free).
Proof.
  intros p. rewrite peakFreeOf_bind, list_elem_of_bind.
  intros (slot & Hp & _). unfold peakContribution in Hp.
  repeat case_decide; try by apply elem_of_nil in Hp.
  apply list_elem_of_singleton in Hp as ->. simpl. lia.
Qed.

Lemma peakFreeOf_length tz peakStart peakEnd free :
  (length (peakFreeOf tz peakStart peakEnd free) ≤ length free)%nat.
Proof.
  induction free as [|slot free IH]; [done|].
  rewrite peakFreeOf_cons, length_app. unfold peakContribution.
  repeat case_decide; simpl; lia.
Qed.

(** X6.  The peak-free slots are the free time inside the peak window:
    an instant lies in a peak-free slot iff it lies in a free slot and in
    [[peakStart, peakEnd)]; this holds for the pipeline on any list of
    slots, and so for the result of [getAvailability] whenever the
    calendar returned an event. *)
Theorem peakFree_instants now events peakHours tz :
  (∀ peakStart peakEnd free t,
     freeAt (peakFreeOf tz peakStart peakEnd free) t
     ↔ freeAt free t ∧ peakStart ≤ t < peakEnd) ∧
  (events ≠ [] → ∀ t,
     freeAt (peakFreeSlots (getAvailability now events peakHours tz)) t
     ↔ freeAt (freeSlots (getAvailability now events peakHours tz)) t ∧
       (peakWindow now peakHours tz).1 ≤ t < (peakWindow now peakHours tz).2).
Proof.
  split; [intros; apply peakFreeOf_instants|].
  intros Hne t. destruct (getAvailability_busy now events peakHours tz Hne) as [-> ->].
  apply peakFreeOf_instants.
Qed.

Lemma peakFree_instants_witness :
  sampleEvents ≠ [] ∧
  (freeAt (peakFreeSlots
             (getAvailability friday_0800 sampleEvents samplePeakHours Asia_Tokyo))
          (atHour Asia_Tokyo friday_0800 20)
   ↔ freeAt (freeSlots
               (getAvailability friday_0800 sampleEvents samplePeakHours Asia_Tokyo))
            (atHour Asia_Tokyo friday_0800 20) ∧
     (peakWindow friday_0800 samplePeakHours Asia_Tokyo).1
     ≤ atHour Asia_Tokyo friday_0800 20
     < (peakWindow friday_0800 samplePeakHours Asia_Tokyo).2).
Proof.
  assert (H : sampleEvents ≠ []) by done.
  split; [exact H|].
  exact (proj2 (peakFree_instants friday_0800 sampleEvents samplePeakHours
                  Asia_Tokyo) H (atHour Asia_Tokyo friday_0800 20)).
Defined.

(** X7.  The peak-free slots keep the shape of the free slots: when the
    busy intervals derived from the events are well formed, the peak-free
    slots of the result are sorted by start, pairwise disjoint, never
    touching and of positive duration; and in every case each of them
    lies inside the peak window, and there are no more of them than free
    slots. *)
Theorem peakFree_shape now events peakHours tz :
  (Forall wellFormed (busyIntervalsOf now events) →
   outputShape (peakFreeSlots (getAvailability now events peakHours tz))) ∧
  insideWindow (peakWindow now peakHours tz).1 (peakWindow now peakHours tz).2
    (peakFreeSlots (getAvailability now events peakHours tz)) ∧
  (length (peakFreeSlots (getAvailability now events peakHours tz))
   ≤ length (freeSlots (getAvailability now events peakHours tz)))%nat.
Proof.
  destruct (decide (events = [])) as [->|Hne].
  - unfold getAvailability; simpl. split_and!; [|by intros ? ?%elem_of_nil|lia].
    intros _. by apply (separated_outputShape 0).
  - destruct (getAvailability_busy now events peakHours tz Hne) as [-> ->].
    split_and!.
    + intros Hwf. eapply separated_outputShape, peakFreeOf_separated.
      by apply calcFreeSlots_separated.
    + apply peakFreeOf_inside.
    + apply peakFreeOf_length.
Qed.

Lemma peakFree_shape_witness :
  Forall wellFormed (busyIntervalsOf friday_0800 sampleEvents) ∧
  outputShape (peakFreeSlots
                 (getAvailability friday_0800 sampleEvents samplePeakHours Asia_Tokyo)).
Proof.
  assert (H : Forall wellFormed (busyIntervalsOf friday_0800 sampleEvents)).
  { repeat constructor. }
  split; [exact H|].
  exact (proj1 (peakFree_shape friday_0800 sampleEvents samplePeakHours Asia_Tokyo) H).
Defined.

(** X8.  A day without any free slot is case C, and case A is only
    returned together with at least one free slot and one peak-free
    slot. *)
Theorem getAvailability_no_free_slot now events peakHours tz :
  (freeSlots (getAvailability now events peakHours tz) = [] →
   case (getAvailability now events peakHours tz) = C ∧
   peakFreeSlots (getAvailability now events peakHours tz) = []) ∧
  (case (getAvailability now events peakHours tz) = A →
   freeSlots (getAvailability now events peakHours tz) ≠ [] ∧
   peakFreeSlots (getAvailability now events peakHours tz) ≠ []).
Proof.
  destruct (decide (events = [])) as [->|Hne].
  - unfold getAvailability; simpl. split; [done|discriminate].
  - rewrite (getAvailability_general _ _ _ _ Hne); simpl.
    set (free := calcFreeSlots _ _ _ _).
    pose proof (peakFreeOf_length tz (peakWindow now peakHours tz).1
                  (peakWindow now peakHours tz).2 free) as Hlen.
    destruct (peakFreeOf _ _ _ free) as [|p peak] eqn:Hp; simpl in *.
    + split; [done|discriminate].
    + split; [|intros _; split; [|done]];
        destruct free; simpl in *; (done || lia).
Qed.

Lemma getAvailability_no_free_slot_witness :
  freeSlots (getAvailability friday_0800
               [timedEvent 1772118000000 1772204399999] samplePeakHours Asia_Tokyo)
  = [] ∧
  case (getAvailability friday_0800
          [timedEvent 1772118000000 1772204399999] samplePeakHours Asia_Tokyo) = C.
Proof.
  assert (H : freeSlots (getAvailability friday_0800
               [timedEvent 1772118000000 1772204399999] samplePeakHours Asia_Tokyo)
              = []) by reflexivity.
  split; [exact H|].
  exact (proj1 (proj1 (getAvailability_no_free_slot friday_0800
    [timedEvent 1772118000000 1772204399999] samplePeakHours Asia_Tokyo) H)).
Defined.

Lemma busyIntervalsOf_app now events1 events2 :
  busyIntervalsOf now (events1 ++ events2)
  = busyIntervalsOf now events1 ++ busyIntervalsOf now events2.
Proof. unfold busyIntervalsOf. by rewrite List.filter_app, List.map_app. Qed.

Lemma busyIntervalsOf_perm now events events' :
  events ≡ₚ events' → busyIntervalsOf now events ≡ₚ busyIntervalsOf now events'.
Proof.
  unfold busyIntervalsOf.
  induction 1 as [|e l l' _ IH|e1 e2 l|l1 l2 l3 _ IH1 _ IH2]; simpl.
  - done.
  - destruct (hasStartAndEnd e); simpl; by rewrite IH.
  - destruct (hasStartAndEnd e1), (hasStartAndEnd e2); simpl;
      (done || apply Permutation_swap).
  - by rewrite IH1.
Qed.

Lemma busyIntervalsOf_Forall now events (P : Interval → Prop) :
  Forall (λ e, hasStartAndEnd e = true → P (toBusyInterval now e)) events →
  Forall P (busyIntervalsOf now events).
Proof.
  unfold busyIntervalsOf. induction 1 as [|e l He _ IH]; simpl; [constructor|].
  destruct (hasStartAndEnd e); simpl; [|done]. constructor; [by apply He|done].
Qed.

Lemma getAvailability_same_busy now events events' peakHours tz :
  events ≠ [] → events' ≠ [] →
  calcFreeSlots (startOfDay tz now) (endOfDay tz now) (busyIntervalsOf now events) tz
  = calcFreeSlots (startOfDay tz now) (endOfDay tz now) (busyIntervalsOf now events') tz →
  getAvailability now events peakHours tz = getAvailability now events' peakHours tz.
Proof.
  intros Hne Hne' Heq.
  rewrite (getAvailability_general _ _ _ _ Hne), (getAvailability_general _ _ _ _ Hne').
  cbv zeta. fold (busyIntervalsOf now events) (busyIntervalsOf now events').
  by rewrite Heq.
Qed.

(** X9.  An event without a start or without an end is ignored: added
    anywhere to a non-empty list of events, it leaves the whole result
    unchanged.  (Alone, it takes the day off the fast path; see
    [event_without_start].) *)
Theorem getAvailability_ignores_untimed now events1 e events2 peakHours tz :
  hasStartAndEnd e = false →
  events1 ++ events2 ≠ [] →
  getAvailability now (events1 ++ e :: events2) peakHours tz
  = getAvailability now (events1 ++ events2) peakHours tz.
Proof.
  intros He Hne. apply getAvailability_same_busy; [by destruct events1|done|].
  rewrite !busyIntervalsOf_app. f_equal. f_equal.
  unfold busyIntervalsOf. simpl. by rewrite He.
Qed.

Lemma getAvailability_ignores_untimed_witness :
  hasStartAndEnd (eventWithoutStart 0) = false ∧
  sampleEvents ++ [] ≠ [] ∧
  getAvailability friday_0800 (sampleEvents ++ eventWithoutStart 0 :: [])
    samplePeakHours Asia_Tokyo
  = getAvailability friday_0800 (sampleEvents ++ []) samplePeakHours Asia_Tokyo.
Proof.
  assert (H1 : hasStartAndEnd (eventWithoutStart 0) = false) by reflexivity.
  assert (H2 : sampleEvents ++ [] ≠ []) by done.
  split_and!; [exact H1|exact H2|].
  exact (getAvailability_ignores_untimed friday_0800 sampleEvents
           (eventWithoutStart 0) [] samplePeakHours Asia_Tokyo H1 H2).
Defined.

(** X10.  The result does not depend on the order in which the calendar
    returns the events, when the busy intervals derived from them are
    well formed. *)
Theorem getAvailability_permutation now events events' peakHours tz :
  Forall wellFormed (busyIntervalsOf now events) →
  events ≡ₚ events' →
  getAvailability now events peakHours tz = getAvailability now events' peakHours tz.
Proof.
  intros Hwf Hperm.
  destruct (decide (events = [])) as [->|Hne].
  - by apply Permutation_nil_l in Hperm as ->.
  - assert (Hne' : events' ≠ []).
    { intros ->. by apply Permutation_nil_r in Hperm. }
    apply getAvailability_same_busy; [done..|].
    apply calcFreeSlots_ext; [done|].
    intros b. by rewrite (busyIntervalsOf_perm now _ _ Hperm).
Qed.

Lemma getAvailability_permutation_witness :
  Forall wellFormed
    (busyIntervalsOf friday_0800
       [timedEvent (atHour Asia_Tokyo friday_0800 18) (atHour Asia_Tokyo friday_0800 20);
        timedEvent (atHour Asia_Tokyo friday_0800 10) (atHour Asia_Tokyo friday_0800 12)]) ∧
  getAvailability friday_0800
    [timedEvent (atHour Asia_Tokyo friday_0800 18) (atHour Asia_Tokyo friday_0800 20);
     timedEvent (atHour Asia_Tokyo friday_0800 10) (atHour Asia_Tokyo friday_0800 12)]
    samplePeakHours Asia_Tokyo
  = getAvailability friday_0800
      [timedEvent (atHour Asia_Tokyo friday_0800 10) (atHour Asia_Tokyo friday_0800 12);
       timedEvent (atHour Asia_Tokyo friday_0800 18) (atHour Asia_Tokyo friday_0800 20)]
      samplePeakHours Asia_Tokyo.
Proof.
  assert (H : Forall wellFormed
    (busyIntervalsOf friday_0800
       [timedEvent (atHour Asia_Tokyo friday_0800 18) (atHour Asia_Tokyo friday_0800 20);
        timedEvent (atHour Asia_Tokyo friday_0800 10) (atHour Asia_Tokyo friday_0800 12)])).
  { repeat constructor. }
  split; [exact H|].
  exact (getAvailability_permutation friday_0800 _ _ samplePeakHours Asia_Tokyo H
           (Permutation_swap _ _ _)).
Defined.

(** X11.  For the events of one day: when every event that has a start
    and an end starts before it ends and no later than [todayEnd] (the
    [timeMax] of the query), the free slots of the result and the busy
    intervals tile the day window, and every free slot lies between
    [todayStart] and [todayEnd]. *)
Theorem getAvailability_coverage now events peakHours tz :
  events ≠ [] →
  Forall (λ e, hasStartAndEnd e = true →
               (toBusyInterval now e).1 < (toBusyInterval now e).2 ∧
               (toBusyInterval now e).1 ≤ endOfDay tz now) events →
  coverage (startOfDay tz now) (endOfDay tz now) (busyIntervalsOf now events)
    (freeSlots (getAvailability now events peakHours tz)).
Proof.
  intros Hne Hev.
  destruct (getAvailability_busy now events peakHours tz Hne) as [-> _].
  apply calcFreeSlots_tiles.
  - apply busyIntervalsOf_Forall. eapply Forall_impl; [exact Hev|].
    intros e He Hse. by apply He.
  - apply busyIntervalsOf_Forall. eapply Forall_impl; [exact Hev|].
    intros e He Hse. by apply He.
Qed.

Lemma getAvailability_coverage_witness :
  sampleEvents ≠ [] ∧
  coverage (startOfDay Asia_Tokyo friday_0800) (endOfDay Asia_Tokyo friday_0800)
    (busyIntervalsOf friday_0800 sampleEvents)
    (freeSlots (getAvailability friday_0800 sampleEvents samplePeakHours Asia_Tokyo)).
Proof.
  assert (H1 : sampleEvents ≠ []) by done.
  split; [exact H1|].
  apply (getAvailability_coverage friday_0800 sampleEvents samplePeakHours
           Asia_Tokyo H1).
  repeat constructor; vm_compute; congruence.
Defined.

(** X12.  The day label and the weekend flag: the label is
    [<month>月<date>日(<weekday>)] with the weekday taken from the table
    of seven names (the lookup never falls outside the table), and the
    weekend flag of the result is set exactly when that weekday is 日 or
    土; label and flag are the same on both paths. *)
Theorem getAvailability_label now events peakHours tz :
  ∃ d, DAYS !! Z.to_nat (day tz now) = Some d ∧
       todayLabel (getAvailability now events peakHours tz)
       = (showZ (month tz now + 1) ++ "月" ++ showZ (date tz now)
          ++ "日(" ++ d ++ ")")%string ∧
       (isWeekend (getAvailability now events peakHours tz) = true
        ↔ d = "日"%string ∨ d = "土"%string).
Proof.
  assert (Hr : todayLabel (getAvailability now events peakHours tz)
               = formatTodayLabel tz now ∧
               isWeekend (getAvailability now events peakHours tz)
               = (day tz now =? 0) || (day tz now =? 6)).
  { unfold getAvailability. by destruct (length events =? 0)%nat. }
  destruct Hr as [-> ->]. unfold formatTodayLabel.
  assert (Hd : 0 ≤ day tz now < 7) by (unfold day; apply Z.mod_pos_bound; lia).
  assert (Hcases : day tz now = 0 ∨ day tz now = 1 ∨ day tz now = 2 ∨
                   day tz now = 3 ∨ day tz now = 4 ∨ day tz now = 5 ∨
                   day tz now = 6) by lia.
  destruct Hcases as [->|[->|[->|[->|[->|[->| ->]]]]]];
    (eexists; split; [reflexivity|]; split; [reflexivity|]);
    simpl;
    (split;
     [intros H; first [discriminate H | by left | by right]
     |intros [H|H]; first [discriminate H | reflexivity]]).
Qed.

(** * Properties of the text generator *)

(** ** Texts *)

Lemma string_app_assoc (a b c : string) : ((a ++ b) ++ c = a ++ b ++ c)%string.
Proof.
  induction a as [|x a IH]; [done|].
  change (String x ((a ++ b) ++ c) = String x (a ++ b ++ c))%string.
  by rewrite IH.
Qed.

Lemma string_app_nil_r (a : string) : (a ++ "" = a)%string.
Proof.
  induction a as [|x a IH]; [done|].
  change (String x (a ++ "") = String x a)%string. by rewrite IH.
Qed.

Lemma prefixb_sound p : ∀ s, prefixb p s = true → startsWith s p.
Proof.
  induction p as [|a p IH]; intros s; simpl.
  - intros _. by exists s.
  - destruct s as [|b s]; [done|].
    intros [Hab Hp]%andb_true_iff. apply Ascii.eqb_eq in Hab as ->.
    destruct (IH _ Hp) as [r ->]. by exists r.
Qed.

Lemma infixb_sound kw : ∀ s, infixb kw s = true → contains s kw.
Proof.
  induction s as [|c s IH]; simpl.
  - rewrite orb_false_r. intros [r ->]%prefixb_sound. by exists ""%string, r.
  - intros [Hp|Hi]%orb_true_iff.
    + apply prefixb_sound in Hp as [r ->]. by exists ""%string, r.
    + destruct (IH Hi) as (a & b & ->). by exists (String c a), b.
Qed.

Lemma contains_self s : contains s s.
Proof. exists ""%string, ""%string. by rewrite string_app_nil_r. Qed.

Lemma contains_l x y kw : contains x kw → contains (x ++ y) kw.
Proof.
  intros (a & b & ->). exists a, (b ++ y)%string.
  by rewrite !string_app_assoc.
Qed.

Lemma contains_r x y kw : contains y kw → contains (x ++ y) kw.
Proof.
  intros (a & b & ->). exists (x ++ a)%string, b.
  by rewrite !string_app_assoc.
Qed.

Lemma startsWith_l x y p : startsWith x p → startsWith (x ++ y) p.
Proof. intros (b & ->). exists (b ++ y)%string. by rewrite string_app_assoc. Qed.

(** Looks for [kw] in the pieces of a concatenation: a piece is the
    keyword itself, or a literal (or the footer) that includes it. *)
Ltac is_literal s :=
  lazymatch s with
  | String _ _ => idtac
  | EmptyString => idtac
  | FOOTER => idtac
  end.

Ltac find_piece :=
  lazymatch goal with
  | |- contains ?s ?kw =>
      first [ constr_eq s kw; apply contains_self
            | is_literal s; is_literal kw;
              apply infixb_sound; vm_compute; reflexivity ]
  end.

Ltac find_in :=
  lazymatch goal with
  | |- contains (String.append ?x ?y) ?kw =>
      first [ apply contains_l; find_in | apply contains_r; find_in ]
  | |- contains _ _ => find_piece
  end.

Ltac starts_with :=
  lazymatch goal with
  | |- startsWith (String.append ?x ?y) ?p => apply startsWith_l; starts_with
  | |- startsWith (String _ _) _ => apply prefixb_sound; vm_compute; reflexivity
  end.

(** ** [pick] *)

(** Rounding to the nearest double does not reach [n] from a product
    that is at most [n * (1 - 2^-53)]: the rounding error is at most half
    of the last kept bit, which is less than [n * 2^-53]. *)
Lemma roundToDouble_bounds (p n : Z) :
  0 < n → 0 ≤ p ≤ n * (2 ^ 53 - 1) → 0 ≤ roundToDouble p < n * 2 ^ 53.
Proof.
  intros Hn Hp. unfold roundToDouble.
  change (2 ^ 53) with 9007199254740992 in *.
  destruct (Z.le_gt_cases (Z.log2 p) 52) as [Hl|Hl].
  - rewrite Z.max_l by lia. change (2 ^ 0) with 1.
    rewrite Z.div_1_r, Z.mod_1_r. simpl. lia.
  - rewrite Z.max_r by lia.
    assert (Hp0 : 0 < p).
    { destruct (Z.lt_ge_cases 0 p) as [|Hle]; [done|].
      rewrite (Z.log2_nonpos p Hle) in Hl. lia. }
    destruct (Z.log2_spec p Hp0) as [Hlo _].
    set (s := Z.log2 p - 52) in *.
    replace (Z.log2 p) with ((s - 1) + 53) in Hlo by lia.
    rewrite Z.pow_add_r in Hlo by lia.
    change (2 ^ 53) with 9007199254740992 in Hlo.
    assert (Hs : 2 ^ s = 2 * 2 ^ (s - 1)).
    { replace s with (1 + (s - 1)) at 1 by lia.
      by rewrite Z.pow_add_r by lia. }
    assert (HE : 0 < 2 ^ (s - 1)) by (apply Z.pow_pos_nonneg; lia).
    rewrite Hs. set (E := 2 ^ (s - 1)) in *.
    pose proof (Z.div_mod p (2 * E) ltac:(lia)) as Hdm.
    pose proof (Z.mod_pos_bound p (2 * E) ltac:(lia)) as Hr.
    assert (Hq : 0 ≤ p / (2 * E)) by (apply Z.div_pos; lia).
    set (q := p / (2 * E)) in *. set (r := p mod (2 * E)) in *.
    assert (HEn : E < n) by nia.
    destruct (Z.ltb_spec (2 * r) (2 * E)); [nia|].
    destruct (Z.ltb_spec (2 * E) (2 * r)); [nia|].
    destruct (Z.even q); nia.
Qed.

Lemma pick_index (random n : Z) :
  0 ≤ random < 2 ^ 53 → 0 < n → 0 ≤ roundToDouble (random * n) / 2 ^ 53 < n.
Proof.
  intros Hr Hn.
  destruct (roundToDouble_bounds (random * n) n Hn) as [Hlo Hhi]; [nia|].
  split.
  - apply Z.div_pos; lia.
  - apply Z.div_lt_upper_bound; lia.
Qed.

(** The rounding is seen in the result: the exact product below is less
    than 2, the product of the doubles is 2. *)
Example test_pick_rounding :
  6004799503160661 * 3 / 2 ^ 53 = 1 ∧ pick 6004799503160661 [1; 2; 3] = Some 3.
Proof. split; reflexivity. Qed.

Lemma pick_four {T} (random : Z) (a b c d : T) :
  0 ≤ random < 2 ^ 53 →
  pick random [a; b; c; d] = Some a ∨ pick random [a; b; c; d] = Some b ∨
  pick random [a; b; c; d] = Some c ∨ pick random [a; b; c; d] = Some d.
Proof.
  intros Hr. unfold pick. cbn [length].
  pose proof (pick_index random 4 Hr ltac:(lia)) as Hi.
  change (Z.of_nat 4) with 4.
  set (i := roundToDouble (random * 4) / 2 ^ 53) in *.
  assert (i = 0 ∨ i = 1 ∨ i = 2 ∨ i = 3) as [->|[->|[->| ->]]] by lia;
    simpl; tauto.
Qed.

(** ** [generatePost] *)

(** Splits a statement on a post into the twelve templates. *)
Ltac each_template availability Hr :=
  unfold generatePost;
  destruct (case availability);
  match goal with
  | |- context [pick ?r [?a; ?b; ?c; ?d]] =>
      destruct (pick_four r a b c d Hr) as [->|[->|[->| ->]]]
  end;
  cbv beta iota zeta delta [printed default from_option id].

(** X13.  Every post, whatever the case and the template drawn, opens
    with a headline bracket, names the day, carries the three keywords
    天満橋, 24時間営業 and 年中無休, and ends with the common footer; it is
    never the text of an undefined template. *)
Theorem generatePost_structure availability studio random :
  0 ≤ random < 2 ^ 53 →
  startsWith (generatePost availability studio random) "【" ∧
  contains (generatePost availability studio random) (todayLabel availability) ∧
  contains (generatePost availability studio random) "天満橋" ∧
  contains (generatePost availability studio random) "24時間営業" ∧
  contains (generatePost availability studio random) "年中無休" ∧
  endsWith (generatePost availability studio random) FOOTER.
Proof.
  intros Hr.
  each_template availability Hr;
    (split_and!; [starts_with|find_in|find_in|find_in|find_in|by eexists]).
Qed.

Lemma generatePost_structure_witness :
  0 ≤ 2 ^ 52 < 2 ^ 53 ∧
  contains
    (generatePost (getAvailability friday_0800 sampleEvents samplePeakHours Asia_Tokyo)
       (mkStudioGeneratorConfig Asia_Tokyo samplePeakHours) (2 ^ 52))
    "年中無休".
Proof.
  assert (H : 0 ≤ 2 ^ 52 < 2 ^ 53) by lia.
  split; [exact H|].
  exact (proj1 (proj2 (proj2 (proj2 (proj2
    (generatePost_structure
       (getAvailability friday_0800 sampleEvents samplePeakHours Asia_Tokyo)
       (mkStudioGeneratorConfig Asia_Tokyo samplePeakHours) (2 ^ 52) H)))))).
Defined.

(** X14.  The slots shown in a post: in case A the post shows the
    peak-free slots and the start hour of the peak window of the day
    type; in case C it shows the first three free slots. *)
Theorem generatePost_slots availability studio random :
  0 ≤ random < 2 ^ 53 →
  (case availability = A →
   contains (generatePost availability studio random)
     (slotsToString (peakFreeSlots availability) (timezone studio)) ∧
   contains (generatePost availability studio random)
     (formatHour
        (hr_start (if isWeekend availability
                   then weekend (peakHours studio)
                   else weekday (peakHours studio))))) ∧
  (case availability = C →
   contains (generatePost availability studio random)
     (slotsToString (take 3 (freeSlots availability)) (timezone studio))).
Proof.
  intros Hr. split; intros Hc; unfold generatePost; rewrite Hc;
    cbv beta iota zeta;
    match goal with
    | |- context [pick ?r [?a; ?b; ?c; ?d]] =>
        destruct (pick_four r a b c d Hr) as [->|[->|[->| ->]]]
    end;
    cbv beta iota zeta delta [printed default from_option id];
    try split; find_in.
Qed.

Lemma generatePost_slots_witness :
  0 ≤ 0 < 2 ^ 53 ∧
  case (getAvailability friday_0800 sampleEvents samplePeakHours Asia_Tokyo) = A ∧
  contains
    (generatePost (getAvailability friday_0800 sampleEvents samplePeakHours Asia_Tokyo)
       (mkStudioGeneratorConfig Asia_Tokyo samplePeakHours) 0)
    "19時〜21時".
Proof.
  assert (H1 : 0 ≤ 0 < 2 ^ 53) by lia.
  assert (H2 : case (getAvailability friday_0800 sampleEvents samplePeakHours
                       Asia_Tokyo) = A) by reflexivity.
  split_and!; [apply H1..|exact H2|].
  exact (proj1 (proj1 (generatePost_slots
    (getAvailability friday_0800 sampleEvents samplePeakHours Asia_Tokyo)
    (mkStudioGeneratorConfig Asia_Tokyo samplePeakHours) 0 H1) H2)).
Defined.

(** X15.  What a post depends on.  Two results with the same case and
    the same day label give the same post (for the same draw) as soon as:
    in case B, nothing more; in case A, they have the same peak-free
    slots, zone and peak hours of the day type; in case C, their free
    slots agree on the first three and the zone is the same.  So case B
    never shows a slot, case A never looks at the free slots, and case C
    never shows a fourth slot nor the peak hours. *)
Theorem generatePost_depends availability availability' studio studio' random :
  case availability = case availability' →
  todayLabel availability = todayLabel availability' →
  match case availability with
  | B => True
  | A =>
      peakFreeSlots availability = peakFreeSlots availability' ∧
      timezone studio = timezone studio' ∧
      (if isWeekend availability
       then weekend (peakHours studio) else weekday (peakHours studio))
      = (if isWeekend availability'
         then weekend (peakHours studio') else weekday (peakHours studio'))
  | C =>
      take 3 (freeSlots availability) = take 3 (freeSlots availability') ∧
      timezone studio = timezone studio'
  end →
  generatePost availability studio random
  = generatePost availability' studio' random.
Proof.
  intros Hc Hl H. unfold generatePost. rewrite <- Hc, <- Hl.
  destruct (case availability).
  - destruct H as (-> & -> & ->). reflexivity.
  - reflexivity.
  - destruct H as (-> & ->). reflexivity.
Qed.

Lemma generatePost_depends_witness :
  generatePost
    (mkAvailabilityResult C
       [mkTimeSlot (ISO 1) (ISO 3); mkTimeSlot (ISO 5) (ISO 7);
        mkTimeSlot (ISO 9) (ISO 11); mkTimeSlot (ISO 13) (ISO 15)]
       [] false "2月27日(金)")
    (mkStudioGeneratorConfig Asia_Tokyo samplePeakHours) 0
  = generatePost
      (mkAvailabilityResult C
         [mkTimeSlot (ISO 1) (ISO 3); mkTimeSlot (ISO 5) (ISO 7);
          mkTimeSlot (ISO 9) (ISO 11)]
         [] true "2月27日(金)")
      (mkStudioGeneratorConfig Asia_Tokyo samplePeakHours) 0.
Proof.
  apply generatePost_depends; [reflexivity|reflexivity|].
  simpl. split; reflexivity.
Defined.

(** ** [slotsToString] *)

Lemma concat_cons2 sep (x y : string) (l : list string) :
  String.concat sep (x :: y :: l) = (x ++ sep ++ String.concat sep (y :: l))%string.
Proof. reflexivity. Qed.

Lemma concat_app sep (l1 l2 : list string) :
  l1 ≠ [] → l2 ≠ [] →
  String.concat sep (l1 ++ l2)
  = (String.concat sep l1 ++ sep ++ String.concat sep l2)%string.
Proof.
  intros H1 H2. induction l1 as [|x [|y l1] IH]; [done| |].
  - destruct l2 as [|z l2]; [done|]. reflexivity.
  - change ((x :: y :: l1) ++ l2) with (x :: y :: (l1 ++ l2)).
    rewrite !concat_cons2.
    change (y :: l1 ++ l2) with ((y :: l1) ++ l2).
    rewrite IH by done. by rewrite !string_app_assoc.
Qed.

Lemma hour_endOfDay tz now : hour tz (endOfDay tz now) = 23.
Proof.
  unfold hour, endOfDay.
  replace (startOfDay tz now + (MS_PER_DAY - 1) + tz)
    with ((MS_PER_DAY - 1) + (startOfDay tz now + tz)) by lia.
  by rewrite <- Zplus_mod_idemp_r, startOfDay_midnight, Z.add_0_r.
Qed.

(** X16.  [slotsToString] joins the slots with 、 and shows nothing but
    the hours: the empty list gives the empty text, the text of two
    non-empty lists put together is their texts joined by 、, and two
    lists of slots whose start and end hours agree give the same text. *)
Theorem slotsToString_join tz :
  slotsToString [] tz = ""%string ∧
  (∀ slots1 slots2, slots1 ≠ [] → slots2 ≠ [] →
     slotsToString (slots1 ++ slots2) tz
     = (slotsToString slots1 tz ++ "、" ++ slotsToString slots2 tz)%string) ∧
  (∀ slots1 slots2, slotHours tz <$> slots1 = slotHours tz <$> slots2 →
     slotsToString slots1 tz = slotsToString slots2 tz).
Proof.
  split_and!.
  - reflexivity.
  - intros l1 l2 H1 H2. unfold slotsToString. rewrite List.map_app.
    apply concat_app; by destruct l1, l2.
  - intros l1 l2 Hh. unfold slotsToString. f_equal.
    revert l2 Hh. induction l1 as [|s l1 IH]; intros [|s' l2] Hh;
      try done.
    rewrite !fmap_cons in Hh. unfold slotHours at 1 3 in Hh.
    injection Hh as Hst Hen Hl.
    simpl. rewrite Hst, Hen. f_equal. by apply IH.
Qed.

Lemma slotsToString_join_witness :
  [mkTimeSlot (ISO (ms 17)) (ISO (ms 18))] ≠ [] ∧
  [mkTimeSlot (ISO (ms 19)) (ISO (ms 21))] ≠ [] ∧
  slotsToString ([mkTimeSlot (ISO (ms 17)) (ISO (ms 18))]
                 ++ [mkTimeSlot (ISO (ms 19)) (ISO (ms 21))]) TZ
  = "17時〜18時、19時〜21時"%string.
Proof.
  assert (H1 : [mkTimeSlot (ISO (ms 17)) (ISO (ms 18))] ≠ []) by done.
  assert (H2 : [mkTimeSlot (ISO (ms 19)) (ISO (ms 21))] ≠ []) by done.
  split_and!; [exact H1|exact H2|].
  exact (proj1 (proj2 (slotsToString_join TZ)) _ _ H1 H2).
Defined.

(** X17.  A slot is shown by the hours of its ends, so minutes are
    dropped: on any day and in any zone offset, the slot of the whole day
    window (the free slot of case B) is shown as 0時〜23時, and every slot
    that runs to the end of the window ends with 23時. *)
Theorem slotsToString_day_window now tz peakHours s :
  slotsToString (freeSlots (getAvailability now [] peakHours tz)) tz
  = "0時〜23時"%string ∧
  slotsToString [mkTimeSlot (toISOString tz s) (toISOString tz (endOfDay tz now))] tz
  = (showZ (hour tz s) ++ "時〜23時")%string.
Proof.
  unfold getAvailability, slotsToString; simpl.
  by rewrite hour_startOfDay, hour_endOfDay.
Qed.

(** X18.  [pick] never reads outside a non-empty array: for a value of
    [Math.random()] in [[0, 1)] it returns an element of the array,
    although the product of the doubles is rounded and may exceed the
    exact product; on the empty array it returns [undefined]. *)
Theorem pick_in_range {T : Type} (random : Z) (arr : list T) :
  (0 ≤ random < 2 ^ 53 → arr ≠ [] → ∃ x, pick random arr = Some x ∧ x ∈ arr) ∧
  pick random ([] : list T) = None.
Proof.
  split; [|by unfold pick].
  intros Hr Hne. unfold pick.
  assert (Hn : 0 < Z.of_nat (length arr)) by (destruct arr; simpl; [done|lia]).
  pose proof (pick_index random _ Hr Hn) as Hi.
  destruct (lookup_lt_is_Some_2 arr
              (Z.to_nat (roundToDouble (random * Z.of_nat (length arr)) / 2 ^ 53)))
    as [x Hx]; [lia|].
  exists x. split; [done|]. by eapply list_elem_of_lookup_2.
Qed.

Lemma pick_in_range_witness :
  0 ≤ 2 ^ 53 - 1 < 2 ^ 53 ∧ [1; 2; 3] ≠ [] ∧
  ∃ x, pick (2 ^ 53 - 1) [1; 2; 3] = Some x ∧ x ∈ [1; 2; 3].
Proof.
  assert (H1 : 0 ≤ 2 ^ 53 - 1 < 2 ^ 53) by lia.
  assert (H2 : [1; 2; 3] ≠ []) by done.
  split_and!; [apply H1..|exact H2|].
  exact (proj1 (pick_in_range (2 ^ 53 - 1) [1; 2; 3]) H1 H2).
Defined.

(** * Properties of [countByHour] *)

Lemma hour_bounds tz ms : 0 ≤ hour tz ms < 24.
Proof.
  unfold hour.
  pose proof (Z.mod_pos_bound (ms + tz) MS_PER_DAY ltac:(done)) as Hm.
  unfold MS_PER_DAY, MS_PER_HOUR in *. split.
  - apply Z.div_pos; lia.
  - apply Z.div_lt_upper_bound; lia.
Qed.

Lemma bump_seq_lookup (k : nat) : ∀ (counts : HourCounts) (lo : Z) (n : nat),
  0 ≤ lo →
  foldl (λ counts h, alter Z.succ (Z.to_nat h) counts) counts
    (seqZ lo (Z.of_nat k)) !! n
  = (λ c, if decide (lo ≤ Z.of_nat n < lo + Z.of_nat k) then Z.succ c else c)
    <$> counts !! n.
Proof.
  induction k as [|k IH]; intros counts lo n Hlo.
  - simpl. destruct (counts !! n); simpl; [|done].
    by rewrite decide_False by lia.
  - rewrite seqZ_cons by lia. cbn [foldl].
    replace (Z.pred (Z.of_nat (S k))) with (Z.of_nat k) by lia.
    rewrite IH by lia.
    destruct (decide (n = Z.to_nat lo)) as [->|Hne].
    + rewrite list_lookup_alter_eq. destruct (counts !! Z.to_nat lo); simpl; [|done].
      rewrite decide_False by lia. by rewrite decide_True by lia.
    + rewrite list_lookup_alter_ne by done.
      destruct (counts !! n); simpl; [|done]. f_equal.
      repeat case_decide; (done || lia).
Qed.

Lemma bumpHours_lookup counts startHour endEx (n : nat) :
  0 ≤ startHour →
  bumpHours counts startHour endEx !! n
  = (λ c, if decide (startHour ≤ Z.of_nat n < Z.min endEx 24)
          then Z.succ c else c) <$> counts !! n.
Proof.
  intros Hs. unfold bumpHours.
  destruct (decide (0 ≤ Z.min endEx 24 - startHour)) as [Hk|Hk].
  - rewrite <- (Z2Nat.id (Z.min endEx 24 - startHour)) by done.
    rewrite bump_seq_lookup by done.
    destruct (counts !! n); simpl; [|done]. f_equal.
    repeat case_decide; (done || lia).
  - rewrite seqZ_nil by lia. simpl.
    destruct (counts !! n); simpl; [|done]. by rewrite decide_False by lia.
Qed.

Lemma tally_nil tz we h : tally tz we [] h = 0.
Proof. reflexivity. Qed.

Lemma tally_cons tz we ev events h :
  tally tz we (ev :: events) h
  = (if Bool.eqb (onWeekend tz ev.1) we && countedAt tz ev h then 1 else 0)
    + tally tz we events h.
Proof.
  unfold tally. cbn [List.filter].
  destruct (Bool.eqb _ _ && _); cbn [length]; lia.
Qed.

Lemma countStep_lookup tz wd we ev (n : nat) :
  (countStep tz (wd, we) ev).1 !! n
  = (λ c, c + tally tz false [ev] (Z.of_nat n)) <$> wd !! n ∧
  (countStep tz (wd, we) ev).2 !! n
  = (λ c, c + tally tz true [ev] (Z.of_nat n)) <$> we !! n.
Proof.
  destruct ev as [s e]. unfold countStep.
  pose proof (hour_bounds tz s) as Hs.
  rewrite !tally_cons. unfold tally, countedAt. cbn [List.filter length fst snd].
  destruct (onWeekend tz s); cbn [fst snd Bool.eqb andb];
    rewrite ?bumpHours_lookup by lia;
    (split; (destruct (_ !! n); simpl; [|done]; f_equal));
    try lia;
    case_decide;
    destruct (Z.leb_spec (hour tz s) (Z.of_nat n)),
             (Z.ltb_spec (Z.of_nat n) (endHourExclusive tz e)),
             (Z.ltb_spec (Z.of_nat n) 24); simpl; lia.
Qed.

Lemma countByHour_from tz events : ∀ wd we (n : nat),
  (foldl (countStep tz) (wd, we) events).1 !! n
  = (λ c, c + tally tz false events (Z.of_nat n)) <$> wd !! n ∧
  (foldl (countStep tz) (wd, we) events).2 !! n
  = (λ c, c + tally tz true events (Z.of_nat n)) <$> we !! n.
Proof.
  induction events as [|ev events IH]; intros wd we n.
  - unfold tally; simpl. split; (destruct (_ !! n); simpl; [f_equal; lia|done]).
  - cbn [foldl].
    destruct (countStep tz (wd, we) ev) as [wd' we'] eqn:Hstep.
    destruct (IH wd' we' n) as [-> ->].
    pose proof (countStep_lookup tz wd we ev n) as [H1 H2].
    rewrite Hstep in H1, H2. simpl in H1, H2.
    rewrite H1, H2, !tally_cons, !tally_nil.
    split.
    + destruct (wd !! n); cbn [fmap option_fmap option_map]; [|done].
      f_equal. ring.
    + destruct (we !! n); cbn [fmap option_fmap option_map]; [|done].
      f_equal. ring.
Qed.

Lemma noCounts_lookup (n : nat) :
  noCounts !! n = if decide (n < 24)%nat then Some 0 else None.
Proof.
  unfold noCounts. case_decide.
  - by apply lookup_replicate_2.
  - apply lookup_replicate_None. lia.
Qed.

Lemma countByHour_lookup tz events (n : nat) :
  (countByHour events tz).1 !! n
  = (if decide (n < 24)%nat then Some (tally tz false events (Z.of_nat n)) else None) ∧
  (countByHour events tz).2 !! n
  = (if decide (n < 24)%nat then Some (tally tz true events (Z.of_nat n)) else None).
Proof.
  unfold countByHour.
  destruct (countByHour_from tz events noCounts noCounts n) as [-> ->].
  rewrite noCounts_lookup. by case_decide.
Qed.

Lemma tally_perm tz we events events' h :
  events ≡ₚ events' → tally tz we events h = tally tz we events' h.
Proof.
  intros Hp. unfold tally. f_equal.
  induction Hp as [|x l l' _ IH|x y l|l1 l2 l3 _ IH1 _ IH2]; simpl.
  - done.
  - destruct (_ && _); simpl; by rewrite IH.
  - by destruct (_ && _), (_ && _).
  - by rewrite IH1.
Qed.

(** X19.  [countByHour] is a histogram: both arrays keep their 24
    entries, and for every hour [h] of the day the weekday (weekend)
    counter is the number of events that start on a weekday (weekend day)
    and for which [h] is at least the hour of the start and less than both
    the hour at which the event ends, rounded up to the next hour when its
    minutes are not zero, and 24. *)
Theorem countByHour_histogram events tz h :
  0 ≤ h < 24 →
  length (countByHour events tz).1 = 24%nat ∧
  length (countByHour events tz).2 = 24%nat ∧
  (countByHour events tz).1 !! Z.to_nat h = Some (tally tz false events h) ∧
  (countByHour events tz).2 !! Z.to_nat h = Some (tally tz true events h).
Proof.
  intros Hh.
  assert (Hlen : ∀ l : HourCounts,
            (∀ n : nat, is_Some (l !! n) ↔ (n < 24)%nat) → length l = 24%nat).
  { intros l Hl. destruct (decide (length l < 24)%nat) as [Hlt|Hge].
    - destruct (proj2 (Hl (length l)) Hlt) as [x Hx].
      apply lookup_lt_Some in Hx. lia.
    - destruct (decide (24 < length l)%nat) as [Hgt|?]; [|lia].
      destruct (lookup_lt_is_Some_2 l 24 Hgt) as [x Hx].
      pose proof (proj1 (Hl 24%nat) (mk_is_Some _ _ Hx)). lia. }
  split_and!.
  - apply Hlen. intros n. rewrite (proj1 (countByHour_lookup tz events n)).
    case_decide; [by split; eauto|]. split; [by intros [? ?]|lia].
  - apply Hlen. intros n. rewrite (proj2 (countByHour_lookup tz events n)).
    case_decide; [by split; eauto|]. split; [by intros [? ?]|lia].
  - rewrite (proj1 (countByHour_lookup tz events _)).
    rewrite decide_True by lia. by rewrite Z2Nat.id by lia.
  - rewrite (proj2 (countByHour_lookup tz events _)).
    rewrite decide_True by lia. by rewrite Z2Nat.id by lia.
Qed.

Lemma countByHour_histogram_witness :
  0 ≤ 10 < 24 ∧
  (countByHour [(ms 10, ms 12); (ms 10 + 1800000, ms 11 + 1800000)] TZ).2
    !! Z.to_nat 10
  = Some (tally TZ true [(ms 10, ms 12); (ms 10 + 1800000, ms 11 + 1800000)] 10).
Proof.
  assert (H : 0 ≤ 10 < 24) by lia.
  split; [exact H|].
  exact (proj2 (proj2 (proj2 (countByHour_histogram
    [(ms 10, ms 12); (ms 10 + 1800000, ms 11 + 1800000)] TZ 10 H)))).
Defined.

(** X20.  The counts do not depend on the order of the events. *)
Theorem countByHour_permutation events events' tz :
  events ≡ₚ events' → countByHour events tz = countByHour events' tz.
Proof.
  intros Hp.
  destruct (countByHour events tz) as [wd we] eqn:H1.
  destruct (countByHour events' tz) as [wd' we'] eqn:H2.
  f_equal; apply list_eq; intros n.
  - pose proof (proj1 (countByHour_lookup tz events n)) as Ha.
    pose proof (proj1 (countByHour_lookup tz events' n)) as Hb.
    rewrite H1 in Ha. rewrite H2 in Hb. simpl in *. rewrite Ha, Hb.
    by rewrite (tally_perm tz false events events' _ Hp).
  - pose proof (proj2 (countByHour_lookup tz events n)) as Ha.
    pose proof (proj2 (countByHour_lookup tz events' n)) as Hb.
    rewrite H1 in Ha. rewrite H2 in Hb. simpl in *. rewrite Ha, Hb.
    by rewrite (tally_perm tz true events events' _ Hp).
Qed.

Lemma countByHour_permutation_witness :
  [(ms 10, ms 12); (ms 18, ms 20)] ≡ₚ [(ms 18, ms 20); (ms 10, ms 12)] ∧
  countByHour [(ms 10, ms 12); (ms 18, ms 20)] TZ
  = countByHour [(ms 18, ms 20); (ms 10, ms 12)] TZ.
Proof.
  assert (H : [(ms 10, ms 12); (ms 18, ms 20)] ≡ₚ [(ms 18, ms 20); (ms 10, ms 12)])
    by apply Permutation_swap.
  split; [exact H|].
  exact (countByHour_permutation _ _ TZ H).
Defined.

(** X21.  A reservation over midnight is not counted: an event whose end
    falls, on the clock, at an hour that is not after the hour of its
    start (23:00 to 01:00 of the next day, or a stay of several days
    ending earlier in the day) adds nothing to either array, wherever it
    stands in the list. *)
Theorem countByHour_over_midnight events1 s e events2 tz :
  endHourExclusive tz e ≤ hour tz s →
  countByHour (events1 ++ (s, e) :: events2) tz = countByHour (events1 ++ events2) tz.
Proof.
  intros Hover. unfold countByHour. rewrite !foldl_app. cbn [foldl].
  f_equal. destruct (foldl _ _ events1) as [wd we]. unfold countStep, bumpHours.
  rewrite seqZ_nil by lia. simpl. by destruct (onWeekend tz s).
Qed.

Lemma countByHour_over_midnight_witness :
  endHourExclusive TZ (ms 25) ≤ hour TZ (ms 23) ∧
  countByHour ([(ms 10, ms 12)] ++ (ms 23, ms 25) :: []) TZ
  = countByHour ([(ms 10, ms 12)] ++ []) TZ.
Proof.
  assert (H : endHourExclusive TZ (ms 25) ≤ hour TZ (ms 23)) by (vm_compute; discriminate).
  split; [exact H|].
  exact (countByHour_over_midnight [(ms 10, ms 12)] (ms 23) (ms 25) [] TZ H).
Defined.

(** * Properties of [createLocalPost] *)

(** ** The requests and the result *)

(** The run of [createLocalPost], by the outcomes of the calls of
    [fetch]. *)
Lemma createLocalPost_run params net :
  Gbp.run (Gbp.createLocalPost params) net
  = let request := Gbp.Fetch (Gbp.webhookUrl params) (payloadOf params) in
    match outcome net params 0 with
    | Gbp.Rejects e => (Gbp.Throws e, Gbp.mkWorld 1 [request])
    | Gbp.Resolves r1 =>
        if Gbp.ok r1
        then (Gbp.Returns (Gbp.mkPostResult true false None), Gbp.mkWorld 1 [request])
        else
          let w :=
            Gbp.mkWorld 2
              [request;
               Gbp.ConsoleError
                 ("Make.com Webhook error (" ++ showZ (Gbp.status r1) ++ "): "
                  ++ errorTextOf r1 ++ ". Retrying in 10s...")%string;
               Gbp.Sleep 10000; request] in
          match outcome net params 1 with
          | Gbp.Rejects e => (Gbp.Throws e, w)
          | Gbp.Resolves r2 =>
              if Gbp.ok r2
              then (Gbp.Returns (Gbp.mkPostResult true true None), w)
              else (Gbp.Returns
                      (Gbp.mkPostResult false true
                         (Some ("HTTP " ++ showZ (Gbp.status r2) ++ ": "
                                ++ errorTextOf r2)%string)), w)
          end
    end.
Proof.
  unfold Gbp.run, Gbp.createLocalPost, Gbp.attempt, Gbp.bind, Gbp.fetch,
    Gbp.consoleError, Gbp.sleep, Gbp.perform, Gbp.ret, outcome, payloadOf,
    errorTextOf.
  cbn [Gbp.calls Gbp.effects].
  destruct (net 0%nat _ _) as [r1|e]; [|done].
  destruct (Gbp.ok r1); cbn [Gbp.a_ok Gbp.a_status Gbp.errorText Gbp.calls Gbp.effects];
    [done|].
  destruct (net 1%nat _ _) as [r2|e]; [|done].
  by destruct (Gbp.ok r2).
Qed.

(** X22.  [createLocalPost] sends one request, or two: the second one
    exactly when the webhook answered the first with a status that is
    not a success, after one line on the error console and one wait of
    ten seconds.  Both requests go to [webhookUrl] with the same body,
    and nothing else is done. *)
Theorem createLocalPost_requests params net :
  let w := (Gbp.run (Gbp.createLocalPost params) net).2 in
  let request := Gbp.Fetch (Gbp.webhookUrl params) (payloadOf params) in
  if refused (outcome net params 0)
  then Gbp.calls w = 2%nat ∧
       ∃ message,
         Gbp.effects w = [request; Gbp.ConsoleError message; Gbp.Sleep 10000; request]
  else Gbp.calls w = 1%nat ∧ Gbp.effects w = [request].
Proof.
  rewrite createLocalPost_run. cbv zeta.
  destruct (outcome net params 0) as [r1|e]; simpl; [|done].
  destruct (Gbp.ok r1); simpl; [done|].
  split.
  - by destruct (outcome net params 1) as [r2|e]; [destruct (Gbp.ok r2)|].
  - eexists.
    by destruct (outcome net params 1) as [r2|e]; [destruct (Gbp.ok r2)|].
Qed.

(** X23.  The result, when the function returns: [success] is set
    exactly when [error] is absent, [retried] exactly when the first
    answer was a refusal, and a failure is only reported after a second
    refusal, with the status and the body of that second answer (not of
    the first) in [error]. *)
Theorem createLocalPost_result params net result :
  (Gbp.run (Gbp.createLocalPost params) net).1 = Gbp.Returns result →
  (Gbp.success result = true ↔ Gbp.error result = None) ∧
  Gbp.retried result = refused (outcome net params 0) ∧
  (Gbp.success result = false →
   refused (outcome net params 0) = true ∧
   ∃ r2, outcome net params 1 = Gbp.Resolves r2 ∧ Gbp.ok r2 = false ∧
         Gbp.error result
         = Some ("HTTP " ++ showZ (Gbp.status r2) ++ ": " ++ errorTextOf r2)%string) ∧
  (Gbp.success result = true →
   ∃ r, Gbp.ok r = true ∧
        outcome net params (if Gbp.retried result then 1 else 0)%nat = Gbp.Resolves r).
Proof.
  rewrite createLocalPost_run. cbv zeta.
  destruct (outcome net params 0) as [r1|e] eqn:H1; simpl; [|done].
  destruct (Gbp.ok r1) eqn:Hok1; simpl.
  { intros [= <-]. simpl. split_and!; [done|done|done|]. intros _. by exists r1. }
  destruct (outcome net params 1) as [r2|e] eqn:H2; simpl; [|done].
  destruct (Gbp.ok r2) eqn:Hok2; simpl; intros [= <-]; simpl.
  - split_and!; [done|done|done|]. intros _. by exists r2.
  - split_and!; [done|done| |done]. intros _. split; [done|]. by exists r2.
Qed.

Lemma createLocalPost_result_witness :
  (Gbp.run (Gbp.createLocalPost sampleParams) alwaysDown).1
  = Gbp.Returns (Gbp.mkPostResult false true
                   (Some "HTTP 500: (could not read response body)"%string)) ∧
  Gbp.retried (Gbp.mkPostResult false true
                 (Some "HTTP 500: (could not read response body)"%string))
  = refused (outcome alwaysDown sampleParams 0).
Proof.
  assert (H : (Gbp.run (Gbp.createLocalPost sampleParams) alwaysDown).1
              = Gbp.Returns (Gbp.mkPostResult false true
                  (Some "HTTP 500: (could not read response body)"%string)))
    by (vm_compute; reflexivity).
  split; [exact H|].
  exact (proj1 (proj2 (createLocalPost_result sampleParams alwaysDown _ H))).
Defined.

(** X24.  [createLocalPost] throws exactly when a call of [fetch] that
    it makes rejects: the first one, or the second one after a refusal;
    the reason is passed on unchanged.  So it returns a result for every
    network whose calls all resolve. *)
Theorem createLocalPost_throws params net :
  (∀ reason,
     (Gbp.run (Gbp.createLocalPost params) net).1 = Gbp.Throws reason
     ↔ outcome net params 0 = Gbp.Rejects reason ∨
       (refused (outcome net params 0) = true ∧
        outcome net params 1 = Gbp.Rejects reason)) ∧
  ((∀ n reason, outcome net params n ≠ Gbp.Rejects reason) →
   ∃ result, (Gbp.run (Gbp.createLocalPost params) net).1 = Gbp.Returns result).
Proof.
  rewrite createLocalPost_run. cbv zeta. split.
  - intros reason.
    destruct (outcome net params 0) as [r1|e]; simpl.
    + destruct (Gbp.ok r1); simpl.
      { split; [done|]. by intros [?|[? ?]]. }
      destruct (outcome net params 1) as [r2|e]; simpl.
      * destruct (Gbp.ok r2); simpl; (split; [done|]); by intros [?|[? ?]].
      * split; [intros [= ->]; by right|]. by intros [?|[_ [= ->]]].
    + split; [intros [= ->]; by left|]. by intros [[= ->]|[? ?]].
  - intros Hnet.
    destruct (outcome net params 0) as [r1|e] eqn:H1; [|by destruct (Hnet 0%nat e)].
    destruct (Gbp.ok r1); [by eexists|].
    destruct (outcome net params 1) as [r2|e] eqn:H2; [|by destruct (Hnet 1%nat e)].
    destruct (Gbp.ok r2); by eexists.
Qed.

Lemma createLocalPost_throws_witness :
  (Gbp.run (Gbp.createLocalPost sampleParams) unreachableOnRetry).1
  = Gbp.Throws "fetch failed" ∧
  ∃ result,
    (Gbp.run (Gbp.createLocalPost sampleParams) overloadedOnce).1 = Gbp.Returns result.
Proof.
  split.
  - apply (proj1 (createLocalPost_throws sampleParams unreachableOnRetry)).
    right. split; reflexivity.
  - apply (proj2 (createLocalPost_throws sampleParams overloadedOnce)).
    intros [|[|n]] reason; discriminate.
Defined.

(** ** The title *)

Lemma append_cons c s k : (String c s ++ k = String c (s ++ k))%string.
Proof. reflexivity. Qed.

Lemma lazyUntilClose_unfold s :
  Gbp.lazyUntilClose s
  = match Gbp.dropPrefix Gbp.CLOSE s with
    | Some _ => Some EmptyString
    | None =>
        if Gbp.atLineTerminator s then None
        else match s with
             | EmptyString => None
             | String c s' => String c <$> Gbp.lazyUntilClose s'
             end
    end.
Proof. by destruct s. Qed.

Lemma dropPrefix_app p k : Gbp.dropPrefix p (p ++ k) = Some k.
Proof.
  induction p as [|a p IH]; [done|].
  rewrite append_cons. simpl. by rewrite Ascii.eqb_refl.
Qed.

Lemma dropPrefix_sound p : ∀ s r, Gbp.dropPrefix p s = Some r → s = (p ++ r)%string.
Proof.
  induction p as [|a p IH]; intros s r; simpl.
  - by intros [= ->].
  - destruct s as [|b s]; [done|].
    destruct (Ascii.eqb_spec a b) as [->|]; [|done].
    intros ->%IH. by rewrite append_cons.
Qed.

Lemma clash_dropPrefix t : ∀ x k, clash t x = true → Gbp.dropPrefix t (x ++ k) = None.
Proof.
  induction t as [|a t IH]; intros [|b x] k Hc; try done.
  rewrite append_cons. simpl in *.
  destruct (Ascii.eqb a b); simpl in *; [by apply IH|done].
Qed.

Lemma inert_passes s : inert s = true → passes s.
Proof.
  induction s as [|c s IH]; intros Hs k.
  - change (""%string ++ k)%string with k.
    by destruct (Gbp.lazyUntilClose k).
  - cbn [inert] in Hs. apply andb_true_iff in Hs as [Hc Hs].
    cbn [forallb Gbp.lineTerminators] in Hc.
    repeat (apply andb_true_iff in Hc as [? Hc]).
    rewrite lazyUntilClose_unfold.
    rewrite clash_dropPrefix by done.
    unfold Gbp.atLineTerminator. cbn [existsb Gbp.lineTerminators].
    rewrite !clash_dropPrefix by done.
    cbn [orb]. rewrite append_cons, (IH Hs k).
    by destruct (Gbp.lazyUntilClose k).
Qed.

Lemma passes_app a b : passes a → passes b → passes (a ++ b).
Proof.
  intros Ha Hb k. rewrite string_app_assoc, Ha, Hb.
  destruct (Gbp.lazyUntilClose k); [|done].
  simpl. by rewrite string_app_assoc.
Qed.

Lemma inert_uint d : inert (NilEmpty.string_of_uint d) = true.
Proof. induction d; simpl; try done. Qed.

Lemma passes_showZ n : passes (showZ n).
Proof.
  assert (Hu : ∀ d, inert (NilZero.string_of_uint d) = true).
  { intros d. unfold NilZero.string_of_uint.
    destruct d; first [reflexivity | apply (inert_uint (_ d))]. }
  apply inert_passes. unfold showZ, NilZero.string_of_int.
  destruct (Z.to_int n) as [d|d]; [apply Hu|].
  cbn [inert]. apply andb_true_iff. split; [reflexivity|apply Hu].
Qed.

Lemma passes_formatHour h : passes (formatHour h).
Proof.
  apply passes_app; [apply passes_showZ|]. by apply inert_passes.
Qed.

Lemma passes_formatTodayLabel tz d : passes (formatTodayLabel tz d).
Proof.
  unfold formatTodayLabel. cbv zeta.
  repeat (apply passes_app; [first [apply passes_showZ | by apply inert_passes]|]).
  apply passes_app; [|by apply inert_passes].
  generalize (Z.to_nat (day tz d)). intros n.
  do 7 (destruct n as [|n]; [by apply inert_passes|]).
  by apply inert_passes.
Qed.

Lemma getAvailability_todayLabel now events peakHours tz :
  todayLabel (getAvailability now events peakHours tz) = formatTodayLabel tz now.
Proof. unfold getAvailability. by destruct (length events =? 0)%nat. Qed.

(** The lazy quantifier stops at the first closing bracket. *)
Lemma lazyUntilClose_shortest a : ∀ b g,
  Gbp.lazyUntilClose (a ++ "】" ++ b) = Some g → (String.length g ≤ String.length a)%nat.
Proof.
  induction a as [|c a IH]; intros b g.
  - change (""%string ++ "】" ++ b)%string with (Gbp.CLOSE ++ b)%string.
    rewrite lazyUntilClose_unfold, dropPrefix_app. by intros [= <-].
  - rewrite append_cons, lazyUntilClose_unfold.
    destruct (Gbp.dropPrefix _ _); [intros [= <-]; simpl; lia|].
    destruct (Gbp.atLineTerminator _); [done|].
    destruct (Gbp.lazyUntilClose (a ++ "】" ++ b)) as [g'|] eqn:Hg; [|done].
    intros [= <-]. apply IH in Hg. simpl. lia.
Qed.

Lemma string_length_app (a b : string) :
  String.length (a ++ b) = (String.length a + String.length b)%nat.
Proof.
  induction a as [|c a IH]; [done|].
  rewrite append_cons. simpl. by rewrite IH.
Qed.

(** A text that opens with a bracketed headline which the quantifier
    crosses has this headline as its title. *)
Lemma title_bracket h rest :
  passes h → h ≠ ""%string →
  Gbp.title ("【" ++ h ++ "】" ++ rest) = h ∧ ¬ contains h "】".
Proof.
  intros Hp Hne.
  pose proof (Hp ("】" ++ rest)%string) as Hl.
  change ("】" ++ rest)%string with (Gbp.CLOSE ++ rest)%string in Hl at 2.
  rewrite (lazyUntilClose_unfold (Gbp.CLOSE ++ rest)), dropPrefix_app in Hl.
  simpl in Hl. rewrite string_app_nil_r in Hl.
  split.
  - unfold Gbp.title, Gbp.titleMatch.
    change ("【" ++ h ++ "】" ++ rest)%string
      with (Gbp.OPEN ++ (h ++ "】" ++ rest))%string.
    rewrite dropPrefix_app.
    destruct h as [|c h]; [done|].
    rewrite append_cons in Hl |- *.
    rewrite lazyUntilClose_unfold in Hl.
    destruct (Gbp.dropPrefix Gbp.CLOSE _); [done|].
    destruct (Gbp.atLineTerminator _); [done|].
    by rewrite Hl.
  - intros (a & b & ->).
    rewrite !string_app_assoc in Hl.
    apply lazyUntilClose_shortest in Hl.
    rewrite !string_length_app in Hl. simpl in Hl. lia.
Qed.

Lemma cut_sound kw : ∀ s a b, cut kw s = Some (a, b) → s = (a ++ kw ++ b)%string.
Proof.
  induction s as [|c s IH]; intros a b; simpl.
  - destruct (Gbp.dropPrefix kw "") as [r|] eqn:Hr; [|done].
    intros [= <- <-]. by apply dropPrefix_sound in Hr.
  - destruct (Gbp.dropPrefix kw (String c s)) as [r|] eqn:Hr.
    + intros [= <- <-]. by apply dropPrefix_sound in Hr.
    + destruct (cut kw s) as [[a' b']|]; [|done].
      intros [= <- <-]. simpl. rewrite append_cons. f_equal. by apply IH.
Qed.

Lemma app_nonempty_r (a b : string) : b ≠ ""%string → (a ++ b)%string ≠ ""%string.
Proof.
  intros Hb Hab. apply (f_equal String.length) in Hab.
  rewrite string_length_app in Hab. destruct b; [done|]. simpl in Hab. lia.
Qed.

(** The headline of a concatenation [T] of pieces that follows an opening
    bracket: the pieces up to the first literal that has a closing
    bracket, and the part of this literal before the bracket; with it,
    the rest of the text. *)
Ltac split_head T :=
  let keep x R :=
    let hr := split_head R in
    lazymatch hr with
    | (?h, ?rest) => constr:(((x ++ h)%string, rest))
    end in
  lazymatch T with
  | String.append ?x ?R =>
      lazymatch x with
      | String _ _ =>
          let r := eval vm_compute in (cut "】" x) in
          lazymatch r with
          | Some (?a, ?b) => constr:((a, (b ++ R)%string))
          | None => keep x R
          end
      | _ => keep x R
      end
  | String _ _ =>
      let r := eval vm_compute in (cut "】" T) in
      lazymatch r with
      | Some (?a, ?b) => constr:((a, b))
      end
  end.

Ltac passes_pieces :=
  lazymatch goal with
  | |- passes (String.append _ _) => apply passes_app; passes_pieces
  | |- passes (formatHour _) => apply passes_formatHour
  | |- passes (String _ _) => apply inert_passes; vm_compute; reflexivity
  | |- passes EmptyString => apply inert_passes; reflexivity
  | |- passes _ => assumption
  end.

Ltac nonempty_pieces :=
  lazymatch goal with
  | |- String.append _ _ ≠ _ => apply app_nonempty_r; nonempty_pieces
  | |- String _ _ ≠ _ => discriminate
  end.

Lemma generatePost_title availability studio random :
  0 ≤ random < 2 ^ 53 →
  passes (todayLabel availability) →
  ∃ headline rest,
    generatePost availability studio random = ("【" ++ headline ++ "】" ++ rest)%string ∧
    headline ≠ ""%string ∧ passes headline.
Proof.
  intros Hr Hl.
  each_template availability Hr;
    lazymatch goal with
    | |- ∃ headline rest, (?T ++ ?F)%string = _ ∧ _ =>
        lazymatch T with
        | String.append ?x ?R =>
            let x' := eval vm_compute in (Gbp.dropPrefix "【" x) in
            lazymatch x' with
            | Some ?y =>
                let t := constr:((y ++ R)%string) in
                let hr := split_head t in
                lazymatch hr with
                | (?h, ?rest) => exists h, (rest ++ F)%string
                end
            end
        end
    end;
    (split; [rewrite ?string_app_assoc; reflexivity|]);
    (split; [nonempty_pieces|passes_pieces]).
Qed.

Lemma lazyUntilClose_sound : ∀ s group,
  Gbp.lazyUntilClose s = Some group → ∃ rest, s = (group ++ "】" ++ rest)%string.
Proof.
  induction s as [|c s IH]; intros group; rewrite lazyUntilClose_unfold.
  - by destruct (Gbp.atLineTerminator "").
  - destruct (Gbp.dropPrefix Gbp.CLOSE (String c s)) as [r|] eqn:Hr.
    + intros [= <-]. apply dropPrefix_sound in Hr. by exists r.
    + destruct (Gbp.atLineTerminator _); [done|].
      destruct (Gbp.lazyUntilClose s) as [g|]; [|done].
      intros [= <-]. destruct (IH g eq_refl) as [rest ->]. by exists rest.
Qed.

Lemma lazyUntilClose_line_feed a : ∀ b,
  ¬ contains a "】" → Gbp.lazyUntilClose (a ++ LF ++ b) = None.
Proof.
  induction a as [|c a IH]; intros b Hnc.
  - reflexivity.
  - rewrite append_cons, lazyUntilClose_unfold.
    destruct (Gbp.dropPrefix Gbp.CLOSE _) as [r|] eqn:Hr.
    + exfalso. apply dropPrefix_sound in Hr.
      injection Hr as -> Hr.
      destruct a as [|c1 a]; [discriminate Hr|].
      injection Hr as -> Hr.
      destruct a as [|c2 a]; [discriminate Hr|].
      injection Hr as -> Hr.
      apply Hnc. by exists ""%string, a.
    + destruct (Gbp.atLineTerminator _); [done|].
      rewrite IH; [done|].
      intros (x & y & ->). apply Hnc. by exists (String c x), y.
Qed.

Lemma prefixb_app p k : prefixb p (p ++ k) = true.
Proof.
  induction p as [|a p IH]; [done|].
  rewrite append_cons. simpl. by rewrite Ascii.eqb_refl.
Qed.

Lemma infixb_complete kw s : contains s kw → infixb kw s = true.
Proof.
  intros (a & b & ->). induction a as [|c a IH].
  - change (""%string ++ kw ++ b)%string with (kw ++ b)%string.
    destruct (kw ++ b)%string eqn:E; simpl; rewrite <- E, prefixb_app; done.
  - rewrite append_cons. cbn [infixb]. rewrite IH. apply orb_true_r.
Qed.

(** X25.  The title of a generated post is its headline: for the result
    of [getAvailability] on any day and any events, every template of
    [generatePost] gives a text [【headline】rest] whose headline is not
    empty and has no closing bracket, and [createLocalPost] sends this
    headline as the title; the fallback to the first 40 code units is
    never taken. *)
Theorem createLocalPost_title now events peakHours tz studio random :
  0 ≤ random < 2 ^ 53 →
  ∃ headline rest,
    generatePost (getAvailability now events peakHours tz) studio random
    = ("【" ++ headline ++ "】" ++ rest)%string ∧
    headline ≠ ""%string ∧ ¬ contains headline "】" ∧
    ∀ params,
      Gbp.postText params
      = generatePost (getAvailability now events peakHours tz) studio random →
      Gbp.p_title (payloadOf params) = headline.
Proof.
  intros Hr.
  destruct (generatePost_title (getAvailability now events peakHours tz) studio
              random Hr) as (headline & rest & Heq & Hne & Hp).
  { rewrite getAvailability_todayLabel. apply passes_formatTodayLabel. }
  destruct (title_bracket headline rest Hp Hne) as [Ht Hnc].
  exists headline, rest. split_and!; [done|done|done|].
  intros params Hpt. unfold payloadOf. cbn [Gbp.p_title].
  by rewrite Hpt, Heq.
Qed.

Lemma createLocalPost_title_witness :
  0 ≤ 2 ^ 52 < 2 ^ 53 ∧
  ∃ headline rest,
    generatePost (getAvailability friday_0800 sampleEvents samplePeakHours Asia_Tokyo)
      (mkStudioGeneratorConfig Asia_Tokyo samplePeakHours) (2 ^ 52)
    = ("【" ++ headline ++ "】" ++ rest)%string ∧
    headline ≠ ""%string ∧ ¬ contains headline "】" ∧
    ∀ params,
      Gbp.postText params
      = generatePost (getAvailability friday_0800 sampleEvents samplePeakHours Asia_Tokyo)
          (mkStudioGeneratorConfig Asia_Tokyo samplePeakHours) (2 ^ 52) →
      Gbp.p_title (payloadOf params) = headline.
Proof.
  assert (H : 0 ≤ 2 ^ 52 < 2 ^ 53) by lia.
  split; [exact H|].
  exact (createLocalPost_title friday_0800 sampleEvents samplePeakHours Asia_Tokyo
           (mkStudioGeneratorConfig Asia_Tokyo samplePeakHours) (2 ^ 52) H).
Defined.

(** X26.  The title of any text: it is empty only for the empty text;
    when the expression matches, the text is [【group】rest] with a group
    that is not empty; and a headline that is broken by a line feed
    before its closing bracket is not a title, the first 40 code units
    of the text are sent instead. *)
Theorem title_of_text postText :
  (Gbp.title postText = ""%string ↔ postText = ""%string) ∧
  (∀ group, Gbp.titleMatch postText = Some group →
     group ≠ ""%string ∧
     Gbp.title postText = group ∧
     ∃ rest, postText = ("【" ++ group ++ "】" ++ rest)%string) ∧
  (∀ a b, ¬ contains a "】" →
     postText = ("【" ++ a ++ LF ++ b)%string →
     Gbp.title postText = Gbp.slice0 40 postText).
Proof.
  assert (Hm : ∀ group, Gbp.titleMatch postText = Some group →
     group ≠ ""%string ∧
     ∃ rest, postText = ("【" ++ group ++ "】" ++ rest)%string).
  { intros group. unfold Gbp.titleMatch.
    destruct (Gbp.dropPrefix Gbp.OPEN postText) as [r|] eqn:Hr; [|done].
    apply dropPrefix_sound in Hr as ->.
    destruct (Gbp.atLineTerminator r); [done|].
    destruct r as [|c r]; [done|].
    destruct (Gbp.lazyUntilClose r) as [g|] eqn:Hg; [|done].
    intros [= <-]. split; [done|].
    apply lazyUntilClose_sound in Hg as [rest ->]. by exists rest. }
  split_and!.
  - split.
    + unfold Gbp.title.
      destruct (Gbp.titleMatch postText) as [g|] eqn:Hg.
      { intros ->. by destruct (Hm _ eq_refl). }
      destruct postText as [|c s]; [done|].
      unfold Gbp.slice0. cbn [Gbp.sliceFrom]. unfold Gbp.units.
      by destruct (Gbp.byte c <? 240).
    + by intros ->.
  - intros group Hg. destruct (Hm _ Hg) as [Hne Hrest].
    split_and!; [done| |done]. unfold Gbp.title. by rewrite Hg.
  - intros a b Hnc ->. unfold Gbp.title, Gbp.titleMatch.
    change ("【" ++ a ++ LF ++ b)%string with (Gbp.OPEN ++ (a ++ LF ++ b))%string.
    rewrite dropPrefix_app.
    destruct a as [|c a]; [reflexivity|].
    rewrite append_cons.
    destruct (Gbp.atLineTerminator _); [done|].
    rewrite lazyUntilClose_line_feed; [done|].
    intros (x & y & ->). apply Hnc. by exists (String c x), y.
Qed.

Lemma title_of_text_witness :
  Gbp.title ("【本日の" ++ LF ++ "空き状況】本日2月27日(金)")
  = Gbp.slice0 40 ("【本日の" ++ LF ++ "空き状況】本日2月27日(金)").
Proof.
  refine (proj2 (proj2 (title_of_text _)) "本日の"%string
            "空き状況】本日2月27日(金)"%string _ eq_refl).
  intros H%infixb_complete. revert H. vm_compute. discriminate.
Defined.
